(** * github-review-helper: the merge command (merge_command.go)

    A shallow embedding of the merge-readiness logic: the command detector,
    the comment-triggered orchestrator [handleMergeCommand], the merge
    executor [mergeReadyPR], the conflict handler [handleMergeConflict] and
    the status-triggered batch [mergePullRequestsReadyForMerging].

    Remote collaborators (label, comment, pull-request, status, search and
    squash helpers) are opaque: their answers come from a [Remote] record
    that may look at every remote call made so far, and each call is
    appended to the world's call list.  [log.Printf] appends to the world's
    log.  A nil-pointer dereference is an explicit [Panic] outcome. *)

From Stdlib Require Import ZArith List String Ascii Bool Lia.
From Stdlib Require Import Strings.Byte Numbers.DecimalString.
Import ListNotations.

Open Scope string_scope.
Open Scope list_scope.

(* ================================================================== *)
(** ** Go strings: [strings.TrimSpace] over UTF-8 bytes *)

Module GoStrings.

(** UTF-8 encodings of the code points for which [unicode.IsSpace] holds:
    U+0009..U+000D, U+0020, U+0085, U+00A0, U+1680, U+2000..U+200A,
    U+2028, U+2029, U+202F, U+205F, U+3000. *)
Definition spaceEncodings : list (list byte) :=
  [ [x09]; [x0a]; [x0b]; [x0c]; [x0d]; [x20];
    [xc2; x85]; [xc2; xa0];
    [xe1; x9a; x80];
    [xe2; x80; x80]; [xe2; x80; x81]; [xe2; x80; x82]; [xe2; x80; x83];
    [xe2; x80; x84]; [xe2; x80; x85]; [xe2; x80; x86]; [xe2; x80; x87];
    [xe2; x80; x88]; [xe2; x80; x89]; [xe2; x80; x8a];
    [xe2; x80; xa8]; [xe2; x80; xa9]; [xe2; x80; xaf];
    [xe2; x81; x9f];
    [xe3; x80; x80] ].

Fixpoint bytes_eqb (a b : list byte) : bool :=
  match a, b with
  | [], [] => true
  | x :: a', y :: b' => Byte.eqb x y && bytes_eqb a' b'
  | _, _ => false
  end.

(** [dropPrefix p s] is [Some rest] when [s = p ++ rest]. *)
Fixpoint dropPrefix (p s : list byte) : option (list byte) :=
  match p, s with
  | [], _ => Some s
  | x :: p', y :: s' => if Byte.eqb x y then dropPrefix p' s' else None
  | _ :: _, [] => None
  end.

(** Decode one rune at the front and drop it when it is a space: the
    remainder after the first encoding of [encs] that starts [s]. *)
Fixpoint dropOne (encs : list (list byte)) (s : list byte)
  : option (list byte) :=
  match encs with
  | [] => None
  | e :: encs' =>
      match dropPrefix e s with
      | Some rest => Some rest
      | None => dropOne encs' s
      end
  end.

(** The loop of [TrimLeftFunc]: drop space runes while there is one. *)
Fixpoint trimWith (encs : list (list byte)) (fuel : nat) (s : list byte)
  : list byte :=
  match fuel with
  | O => s
  | S fuel' =>
      match dropOne encs s with
      | Some rest => trimWith encs fuel' rest
      | None => s
      end
  end.

Definition TrimLeftSpace (s : list byte) : list byte :=
  trimWith spaceEncodings (List.length s) s.

(** [TrimRightFunc] decodes the last rune; a string ends with a space
    rune exactly when it ends with one of the encodings, so the right
    trim is the left trim of the reversed string by the reversed
    encodings. *)
Definition TrimRightSpace (s : list byte) : list byte :=
  rev (trimWith (map (@rev byte) spaceEncodings) (List.length s) (rev s)).

(** [strings.TrimSpace]. *)
Definition TrimSpaceBytes (s : list byte) : list byte :=
  TrimRightSpace (TrimLeftSpace s).

Definition TrimSpace (s : string) : string :=
  string_of_list_byte (TrimSpaceBytes (list_byte_of_string s)).

(** A run of space runes: a concatenation of encodings from [encs]. *)
Inductive runOf (encs : list (list byte)) : list byte -> Prop :=
| run_nil : runOf encs []
| run_cons e l : In e encs -> runOf encs l -> runOf encs (e ++ l).

Definition spaceRun : list byte -> Prop := runOf spaceEncodings.

(** No encoding starts with byte [b]. *)
Definition noneStartsWith (encs : list (list byte)) (b : byte) : bool :=
  forallb (fun e => match e with
                    | [] => false
                    | x :: _ => negb (Byte.eqb x b)
                    end) encs.

(** No encoding is empty or a proper prefix of another: decoding the
    first rune is unambiguous. *)
Definition prefixFree (encs : list (list byte)) : bool :=
  forallb (fun e =>
    negb (bytes_eqb e []) &&
    forallb (fun e' =>
      match dropPrefix e e' with
      | Some rest => bytes_eqb rest []
      | None => true
      end) encs) encs.

Definition mergeBytes : list byte := list_byte_of_string "!merge".

(** [%d] of an int and of a length. *)
Definition itoa (n : Z) : string := NilZero.string_of_int (Z.to_int n).
Definition utoa (n : nat) : string := NilZero.string_of_uint (Nat.to_uint n).

Definition quote : string := String (ascii_of_byte x22) EmptyString.

End GoStrings.
Import GoStrings.

(* ================================================================== *)
(** ** Command detector *)

Definition MergingLabel : string := "merging".

Definition isMergeCommand (comment : string) : bool :=
  String.eqb (TrimSpace comment) "!merge".

(* ================================================================== *)
(** ** Data model *)

Record Repository := { Owner : string; Name : string }.

Record User := { Login : string }.

Record Issue := {
  Issue_Number : Z;
  Issue_Repository : Repository;
  Issue_User : User
}.

(** The comment event.  The source reads [IssueNumber] and [Repository]
    and calls [Issue()]. *)
Record IssueComment := {
  IC_IssueNumber : Z;
  IC_Comment : string;
  IC_Repository : Repository;
  IC_User : User
}.

Record Branch := { Branch_Name : string; Branch_SHA : string }.

Record StatusEvent := {
  SE_SHA : string;
  SE_State : string;
  SE_Repository : Repository;
  SE_Branches : list Branch
}.

(** [github.PullRequest]: every field is a pointer, [None] is nil. *)
Record PullRequest := {
  Merged : option bool;
  Mergeable : option bool;
  HeadSHA : option string
}.

(** [github.RepoStatus]. *)
Record RepoStatus := {
  RS_Context : option string;
  RS_State : option string
}.

(** [github.Issue] as returned by the search, with its [github.User]. *)
Record GhUser := { Gh_Login : option string }.
Record GhIssue := { Gh_Number : option Z; Gh_User : option GhUser }.

(** Go [error] values: the sentinel [ErrMergeConflict] is recognised by
    identity, every other error is distinct from it. *)
Inductive GoError :=
| ErrMergeConflict
| ErrOther (msg : string).

Definition StatusBadGateway : Z := 502.

(** [ErrorResponse{err, code, message}]. *)
Record ErrorResponse := {
  Error : GoError;
  Code : Z;
  ErrorMessage : string
}.

Inductive Response :=
| SuccessResponse (Message : string)
| Failure (e : ErrorResponse).

(** Modelled from the spec: [Issue.FullName] is missing from the sources;
    the scenario of section 8 prints PR 7 of owner/repo as
    [owner/repo#7]. *)
Definition FullName (issue : Issue) : string :=
  (Owner (Issue_Repository issue) ++ "/" ++ Name (Issue_Repository issue)
   ++ "#" ++ itoa (Issue_Number issue))%string.

(** Modelled from the spec: [IssueComment.Issue()] is missing from the
    sources; an Issue is {Number, Repository, User} built from the event
    payload. *)
Definition IC_Issue (issueComment : IssueComment) : Issue :=
  {| Issue_Number := IC_IssueNumber issueComment;
     Issue_Repository := IC_Repository issueComment;
     Issue_User := IC_User issueComment |}.

(* ================================================================== *)
(** ** The world: remote calls and the log *)

(** One remote call with its arguments and its answer. *)
Inductive Call :=
| CallAddLabel (repo : Repository) (n : Z) (label : string)
    (res : option ErrorResponse)
| CallRemoveLabel (repo : Repository) (n : Z) (label : string)
    (res : option ErrorResponse)
| CallGetPR (issueComment : IssueComment) (res : PullRequest + ErrorResponse)
| CallGetStatuses (pr : PullRequest)
    (res : string * list RepoStatus + ErrorResponse)
| CallSquash (pr : PullRequest) (res : Response)
| CallMerge (repo : Repository) (n : Z) (res : option GoError)
| CallComment (message : string) (repo : Repository) (n : Z)
    (res : option GoError)
| CallSearch (query : string) (res : list GhIssue + GoError).

(** The helpers of the repository that talk to the platform, as
    parameters: each answer may depend on the calls made so far. *)
Record Remote := {
  r_addLabel : list Call -> Repository -> Z -> string -> option ErrorResponse;
  r_removeLabel :
    list Call -> Repository -> Z -> string -> option ErrorResponse;
  r_getPR : list Call -> IssueComment -> PullRequest + ErrorResponse;
  r_getStatuses :
    list Call -> PullRequest -> string * list RepoStatus + ErrorResponse;
  r_squashAndReportFailure : list Call -> PullRequest -> Response;
  r_merge : list Call -> Repository -> Z -> option GoError;
  r_comment : list Call -> string -> Repository -> Z -> option GoError;
  r_searchIssues : list Call -> string -> list GhIssue + GoError
}.

Inductive LogArg :=
| ArgInt (n : Z)
| ArgStr (s : string)
| ArgErr (e : GoError).

(** A [log.Printf] call: the format as written in the source and its
    arguments. *)
Record LogLine := { log_format : string; log_args : list LogArg }.

Record World := { calls : list Call; logs : list LogLine }.

Definition emptyWorld : World := {| calls := []; logs := [] |}.

Inductive Outcome (A : Type) :=
| Ret (a : A)
| Panic.
Arguments Ret {A} a.
Arguments Panic {A}.

(** A computation threads the world and either returns or panics. *)
Definition M (A : Type) : Type := World -> Outcome A * World.

Definition ret {A} (a : A) : M A := fun w => (Ret a, w).

Definition bind {A B} (m : M A) (k : A -> M B) : M B :=
  fun w =>
    match m w with
    | (Ret a, w') => k a w'
    | (Panic, w') => (Panic, w')
    end.

Declare Scope go_scope.
Delimit Scope go_scope with go.
Notation "x <- m ;; k" := (bind m (fun x => k))
  (at level 100, m at next level, right associativity) : go_scope.
Notation "m ;;; k" := (bind m (fun _ => k))
  (at level 100, right associativity) : go_scope.
Open Scope go_scope.

(** [*p]: a nil pointer panics. *)
Definition deref {A} (p : option A) : M A :=
  fun w => match p with Some a => (Ret a, w) | None => (Panic, w) end.

Definition log_Printf (format : string) (args : list LogArg) : M unit :=
  fun w =>
    (Ret tt,
     {| calls := calls w;
        logs := logs w ++ [{| log_format := format; log_args := args |}] |}).

(** Ask the remote with the calls made so far, then record the call. *)
Definition remoteCall {A} (ask : list Call -> A) (mk : A -> Call) : M A :=
  fun w =>
    let a := ask (calls w) in
    (Ret a, {| calls := calls w ++ [mk a]; logs := logs w |}).

(* ================================================================== *)
(** ** The core of merge_command.go *)

Definition branchHeadMatches (sha : string) (branch : Branch) : bool :=
  String.eqb sha (Branch_SHA branch).

Fixpoint isStatusForBranchHead_loop (sha : string) (branches : list Branch)
  : bool :=
  match branches with
  | [] => false
  | branch :: rest =>
      if branchHeadMatches sha branch then true
      else isStatusForBranchHead_loop sha rest
  end.

Definition isStatusForBranchHead (statusEvent : StatusEvent) : bool :=
  isStatusForBranchHead_loop (SE_SHA statusEvent) (SE_Branches statusEvent).

Definition newPullRequestsPossiblyReadyForMerging (statusEvent : StatusEvent)
  : bool :=
  String.eqb (SE_State statusEvent) "success"
  && isStatusForBranchHead statusEvent.

Section Core.

(** The collaborators and the squash status context (a constant declared
    elsewhere in the repository). *)
Variable remote : Remote.
Variable githubStatusSquashContext : string.

Definition addLabel (repo : Repository) (n : Z) (label : string)
  : M (option ErrorResponse) :=
  remoteCall (fun h => r_addLabel remote h repo n label)
             (CallAddLabel repo n label).

Definition removeLabel (repo : Repository) (n : Z) (label : string)
  : M (option ErrorResponse) :=
  remoteCall (fun h => r_removeLabel remote h repo n label)
             (CallRemoveLabel repo n label).

Definition getPR (issueComment : IssueComment)
  : M (PullRequest + ErrorResponse) :=
  remoteCall (fun h => r_getPR remote h issueComment)
             (CallGetPR issueComment).

Definition getStatuses (pr : PullRequest)
  : M (string * list RepoStatus + ErrorResponse) :=
  remoteCall (fun h => r_getStatuses remote h pr) (CallGetStatuses pr).

Definition squashAndReportFailure (pr : PullRequest) : M Response :=
  remoteCall (fun h => r_squashAndReportFailure remote h pr) (CallSquash pr).

Definition merge (repo : Repository) (n : Z) : M (option GoError) :=
  remoteCall (fun h => r_merge remote h repo n) (CallMerge repo n).

Definition comment (message : string) (repo : Repository) (n : Z)
  : M (option GoError) :=
  remoteCall (fun h => r_comment remote h message repo n)
             (CallComment message repo n).

Definition searchIssues (query : string) : M (list GhIssue + GoError) :=
  remoteCall (fun h => r_searchIssues remote h query) (CallSearch query).

(** [*status.Context == githubStatusSquashContext &&
     *status.State == "pending"], the second dereference only when the
    first comparison holds. *)
Fixpoint containsPendingSquashStatus (statuses : list RepoStatus) : M bool :=
  match statuses with
  | [] => ret false
  | status :: rest =>
      ctx <- deref (RS_Context status) ;;
      if String.eqb ctx githubStatusSquashContext then
        st <- deref (RS_State status) ;;
        if String.eqb st "pending" then ret true
        else containsPendingSquashStatus rest
      else containsPendingSquashStatus rest
  end.

Definition conflictMessage (issue : Issue) : string :=
  ("I'm unable to merge this PR because of a merge conflict."
   ++ " @" ++ Login (Issue_User issue)
   ++ ", can you please take a look?")%string.

Definition handleMergeConflict (issue : Issue) : M (option ErrorResponse) :=
  log_Printf
    "Merging PR %s failed due to a merge conflict. Removing the '%s' label and notifying the author.\n"
    [ArgStr (FullName issue); ArgStr MergingLabel] ;;;
  removeLabelErrResp <-
    removeLabel (Issue_Repository issue) (Issue_Number issue) MergingLabel ;;
  match removeLabelErrResp with
  | Some e =>
      log_Printf
        "Failed to remove the '%s' label. Still notifying the author of the merge conflict. %v\n"
        [ArgStr MergingLabel; ArgErr (Error e)]
  | None => ret tt
  end ;;;
  let message := conflictMessage issue in
  err <- comment message (Issue_Repository issue) (Issue_Number issue) ;;
  match err with
  | Some err =>
      let errorMessage :=
        ("Failed to notify the author of PR " ++ FullName issue
         ++ " about the merge conflict")%string in
      ret (Some {| Error := err; Code := StatusBadGateway;
                   ErrorMessage := errorMessage |})
  | None =>
      match removeLabelErrResp with
      | Some e => ret (Some e)
      | None => ret None
      end
  end.

Definition mergeReadyPR (issue : Issue) : M (option ErrorResponse) :=
  err <- merge (Issue_Repository issue) (Issue_Number issue) ;;
  match err with
  | Some ErrMergeConflict => handleMergeConflict issue
  | Some err =>
      let message := ("Failed to merge PR " ++ FullName issue)%string in
      ret (Some {| Error := err; Code := StatusBadGateway;
                   ErrorMessage := message |})
  | None =>
      log_Printf "PR %s successfully merged. Removing the '%s' label.\n"
        [ArgStr (FullName issue); ArgStr MergingLabel] ;;;
      errResp <-
        removeLabel (Issue_Repository issue) (Issue_Number issue)
                    MergingLabel ;;
      match errResp with
      | Some e => ret (Some e)
      | None => ret None
      end
  end.

Definition handleMergeCommand (issueComment : IssueComment) : M Response :=
  errResp <- addLabel (IC_Repository issueComment)
                      (IC_IssueNumber issueComment) MergingLabel ;;
  match errResp with
  | Some e => ret (Failure e)
  | None =>
  fetched <- getPR issueComment ;;
  match fetched with
  | inr e => ret (Failure e)
  | inl pr =>
  merged <- deref (Merged pr) ;;
  if merged then
    log_Printf "PR #%d already merged. Removing the '%s' label.\n"
      [ArgInt (IC_IssueNumber issueComment); ArgStr MergingLabel] ;;;
    errResp <- removeLabel (IC_Repository issueComment)
                           (IC_IssueNumber issueComment) MergingLabel ;;
    match errResp with
    | Some e => ret (Failure e)
    | None => ret (SuccessResponse EmptyString)
    end
  else
  mergeable <- deref (Mergeable pr) ;;
  if negb mergeable then ret (SuccessResponse EmptyString)
  else
  fetchedStatuses <- getStatuses pr ;;
  match fetchedStatuses with
  | inr e => ret (Failure e)
  | inl (state, statuses) =>
  pendingSquash <-
    (if String.eqb state "pending"
     then containsPendingSquashStatus statuses
     else ret false) ;;
  if pendingSquash then squashAndReportFailure pr
  else if negb (String.eqb state "success") then
    log_Printf "PR #%d has pending and/or failed statuses. Not merging.\n"
      [ArgInt (IC_IssueNumber issueComment)] ;;;
    ret (SuccessResponse EmptyString)
  else
  errResp <- mergeReadyPR (IC_Issue issueComment) ;;
  match errResp with
  | Some e => ret (Failure e)
  | None =>
      ret (SuccessResponse
             ("Successfully merged PR "
              ++ FullName (IC_Issue issueComment))%string)
  end
  end
  end
  end.

Definition searchQuery (statusEvent : StatusEvent) : string :=
  (SE_SHA statusEvent ++ " label:" ++ quote ++ MergingLabel ++ quote
   ++ " is:open repo:" ++ Owner (SE_Repository statusEvent) ++ "/"
   ++ Name (SE_Repository statusEvent) ++ " status:success")%string.

(** The [for ... range issuesToMerge] loop, carrying [finalErrResp]. *)
Fixpoint mergeAll (repo : Repository) (issuesToMerge : list GhIssue)
    (finalErrResp : option ErrorResponse) : M (option ErrorResponse) :=
  match issuesToMerge with
  | [] => ret finalErrResp
  | issueToMerge :: rest =>
      number <- deref (Gh_Number issueToMerge) ;;
      user <- deref (Gh_User issueToMerge) ;;
      login <- deref (Gh_Login user) ;;
      let issue := {| Issue_Number := number;
                      Issue_Repository := repo;
                      Issue_User := {| Login := login |} |} in
      errResp <- mergeReadyPR issue ;;
      match errResp with
      | Some e =>
          match finalErrResp with
          | None => mergeAll repo rest (Some e)
          | Some previous =>
              log_Printf
                "Multiple PR merge errors have occured. Marking the latest error to be returned as a response, replacing the previous error. Logging the previous error:\n%s: %v\n"
                [ArgStr (ErrorMessage previous); ArgErr (Error previous)] ;;;
              mergeAll repo rest (Some e)
          end
      | None => mergeAll repo rest finalErrResp
      end
  end.

Definition mergePullRequestsReadyForMerging (statusEvent : StatusEvent)
  : M Response :=
  let query := searchQuery statusEvent in
  found <- searchIssues query ;;
  match found with
  | inr err =>
      let message :=
        ("Searching for issues with query '" ++ query
         ++ "' failed")%string in
      ret (Failure {| Error := err; Code := StatusBadGateway;
                      ErrorMessage := message |})
  | inl issuesToMerge =>
      finalErrResp <-
        mergeAll (SE_Repository statusEvent) issuesToMerge None ;;
      match finalErrResp with
      | Some e => ret (Failure e)
      | None =>
          ret (SuccessResponse
                 ("Successfully merged "
                  ++ utoa (List.length issuesToMerge) ++ " PRs")%string)
      end
  end.

End Core.

(* ================================================================== *)
(** ** Observations on call histories and logs *)

Definition repo_eqb (a b : Repository) : bool :=
  String.eqb (Owner a) (Owner b) && String.eqb (Name a) (Name b).

Definition sameIssue (repo : Repository) (n : Z) (repo' : Repository)
    (n' : Z) : bool :=
  repo_eqb repo repo' && Z.eqb n n'.

Definition isMergeCall (c : Call) : bool :=
  match c with CallMerge _ _ _ => true | _ => false end.

Definition isRemoveLabelCall (c : Call) : bool :=
  match c with CallRemoveLabel _ _ _ _ => true | _ => false end.

Definition isCommentCall (c : Call) : bool :=
  match c with CallComment _ _ _ _ => true | _ => false end.

(** Merge calls that the platform accepted: merges really performed. *)
Definition isPerformedMerge (c : Call) : bool :=
  match c with CallMerge _ _ None => true | _ => false end.

(** Merge calls answered with the conflict error. *)
Definition isConflictedMerge (c : Call) : bool :=
  match c with CallMerge _ _ (Some ErrMergeConflict) => true | _ => false end.

Definition countCalls (p : Call -> bool) (h : list Call) : nat :=
  List.length (filter p h).

Definition mergesPerformed : list Call -> nat := countCalls isPerformedMerge.
Definition conflictsMet : list Call -> nat := countCalls isConflictedMerge.

(** The line written when a batch error is replaced by a later one. *)
Definition supersededLog (previous : ErrorResponse) : LogLine :=
  {| log_format :=
       "Multiple PR merge errors have occured. Marking the latest error to be returned as a response, replacing the previous error. Logging the previous error:\n%s: %v\n";
     log_args := [ArgStr (ErrorMessage previous); ArgErr (Error previous)] |}.

Definition goError_eqb (a b : GoError) : bool :=
  match a, b with
  | ErrMergeConflict, ErrMergeConflict => true
  | ErrOther x, ErrOther y => String.eqb x y
  | _, _ => false
  end.

Definition mentionsError (e : ErrorResponse) (a : LogArg) : bool :=
  match a with
  | ArgErr err => goError_eqb err (Error e)
  | ArgStr s => String.eqb s (ErrorMessage e)
  | ArgInt _ => false
  end.

(** Some log line carries the error of [e] or its message. *)
Definition errorLogged (e : ErrorResponse) (ls : list LogLine) : bool :=
  existsb (fun l => existsb (mentionsError e) (log_args l)) ls.

(** The Issue the batch loop builds from a search result, when the result
    carries a number and an author login. *)
Definition candidateIssue (repo : Repository) (c : GhIssue) : option Issue :=
  match Gh_Number c, Gh_User c with
  | Some n, Some u =>
      match Gh_Login u with
      | Some l => Some {| Issue_Number := n; Issue_Repository := repo;
                          Issue_User := {| Login := l |} |}
      | None => None
      end
  | _, _ => None
  end.

Definition wellFormedCandidate (c : GhIssue) : Prop :=
  exists n l, c = {| Gh_Number := Some n;
                     Gh_User := Some {| Gh_Login := Some l |} |}.

(** The answers of the merge executor on the candidates in turn, from the
    call history [h]. *)
Fixpoint executorResults (remote : Remote) (repo : Repository)
    (candidates : list GhIssue) (h : list Call)
  : list (option ErrorResponse) :=
  match candidates with
  | [] => []
  | c :: rest =>
      match candidateIssue repo c with
      | None => []
      | Some issue =>
          match mergeReadyPR remote issue {| calls := h; logs := [] |} with
          | (Ret r, w') => r :: executorResults remote repo rest (calls w')
          | (Panic, _) => []
          end
      end
  end.

Fixpoint failures (rs : list (option ErrorResponse)) : list ErrorResponse :=
  match rs with
  | [] => []
  | Some e :: rest => e :: failures rest
  | None :: rest => failures rest
  end.

Definition allSucceeded (rs : list (option ErrorResponse)) : Prop :=
  failures rs = [].

(** The response of the batch after the failures [fs], starting from
    [finalErrResp]: the last failure wins. *)
Fixpoint lastFailure (finalErrResp : option ErrorResponse)
    (fs : list ErrorResponse) : option ErrorResponse :=
  match fs with
  | [] => finalErrResp
  | e :: rest => lastFailure (Some e) rest
  end.

(** The failures that were replaced by a later one. *)
Fixpoint superseded (finalErrResp : option ErrorResponse)
    (fs : list ErrorResponse) : list ErrorResponse :=
  match fs with
  | [] => []
  | e :: rest =>
      match finalErrResp with
      | Some previous => previous :: superseded (Some e) rest
      | None => superseded (Some e) rest
      end
  end.

(** The log line and the calls of one orchestrator run on a PR that is
    already merged. *)
Definition alreadyMergedLog (issueComment : IssueComment) : LogLine :=
  {| log_format := "PR #%d already merged. Removing the '%s' label.\n";
     log_args := [ArgInt (IC_IssueNumber issueComment);
                  ArgStr MergingLabel] |}.

Definition alreadyMergedCalls (issueComment : IssueComment)
    (pr : PullRequest) : list Call :=
  [CallAddLabel (IC_Repository issueComment) (IC_IssueNumber issueComment)
     MergingLabel None;
   CallGetPR issueComment (inl pr);
   CallRemoveLabel (IC_Repository issueComment)
     (IC_IssueNumber issueComment) MergingLabel None].

(** The log of the conflict handler, given the answer of the label
    removal. *)
Definition conflictLogs (issue : Issue) (removal : option ErrorResponse)
  : list LogLine :=
  {| log_format :=
       "Merging PR %s failed due to a merge conflict. Removing the '%s' label and notifying the author.\n";
     log_args := [ArgStr (FullName issue); ArgStr MergingLabel] |}
  :: match removal with
     | Some e =>
         [{| log_format :=
               "Failed to remove the '%s' label. Still notifying the author of the merge conflict. %v\n";
             log_args := [ArgStr MergingLabel; ArgErr (Error e)] |}]
     | None => []
     end.

(* ------------------------------------------------------------------ *)
(** *** The label and the outstanding command *)

(** Modelled from the spec: the platform's label store is not part of the
    sources.  A successful add of the label sets it on the issue, a
    successful removal clears it, a failed call leaves it as it was. *)
Definition labelStep (repo : Repository) (n : Z) (has : bool) (c : Call)
  : bool :=
  match c with
  | CallAddLabel repo' n' label None =>
      if sameIssue repo n repo' n' && String.eqb label MergingLabel
      then true else has
  | CallRemoveLabel repo' n' label None =>
      if sameIssue repo n repo' n' && String.eqb label MergingLabel
      then false else has
  | _ => has
  end.

Definition hasLabel (h : list Call) (repo : Repository) (n : Z) : bool :=
  fold_left (labelStep repo n) h false.

(** Modelled from the spec: what happens to a merge command.  A command
    is accepted when the orchestrator is run on its comment (section 2: on
    a positive match of the detector the orchestrator runs once); the
    acceptance is a happening of its own, apart from the remote calls the
    run then makes. *)
Inductive Happening :=
| CommandAccepted (repo : Repository) (n : Z)
| RemoteCall (c : Call).

(** Modelled from the spec: an accepted command is outstanding until it is
    resolved: the PR is merged, is found already merged, or its merge
    conflict has been reported to the author (the comment was
    delivered). *)
Definition outstandingStep (repo : Repository) (n : Z) (out : bool)
    (h : Happening) : bool :=
  match h with
  | CommandAccepted repo' n' =>
      if sameIssue repo n repo' n' then true else out
  | RemoteCall (CallMerge repo' n' None) =>
      if sameIssue repo n repo' n' then false else out
  | RemoteCall (CallGetPR ic (inl pr)) =>
      match Merged pr with
      | Some true =>
          if sameIssue repo n (IC_Repository ic) (IC_IssueNumber ic)
          then false else out
      | _ => out
      end
  | RemoteCall (CallComment _ repo' n' None) =>
      if sameIssue repo n repo' n' then false else out
  | RemoteCall _ => out
  end.

Definition outstanding (journal : list Happening) (repo : Repository)
    (n : Z) : bool :=
  fold_left (outstandingStep repo n) journal false.

Definition labelCallsSucceed (remote : Remote) : Prop :=
  (forall h repo n label, r_addLabel remote h repo n label = None) /\
  (forall h repo n label, r_removeLabel remote h repo n label = None).

Definition commentsSucceed (remote : Remote) : Prop :=
  forall h message repo n, r_comment remote h message repo n = None.

(** The operations of the core. *)
Inductive Operation :=
| OpHandleMergeCommand (issueComment : IssueComment)
| OpMergeReadyPR (issue : Issue)
| OpHandleMergeConflict (issue : Issue)
| OpMergePullRequestsReadyForMerging (statusEvent : StatusEvent).

Definition perform (remote : Remote) (squashContext : string)
    (op : Operation) (w : World) : World :=
  match op with
  | OpHandleMergeCommand ic =>
      snd (handleMergeCommand remote squashContext ic w)
  | OpMergeReadyPR issue => snd (mergeReadyPR remote issue w)
  | OpHandleMergeConflict issue => snd (handleMergeConflict remote issue w)
  | OpMergePullRequestsReadyForMerging ev =>
      snd (mergePullRequestsReadyForMerging remote ev w)
  end.

(** Only the orchestrator is run on a merge command: its run accepts the
    command of its comment, whatever the run then does. *)
Definition acceptance (op : Operation) : list Happening :=
  match op with
  | OpHandleMergeCommand ic =>
      [CommandAccepted (IC_Repository ic) (IC_IssueNumber ic)]
  | _ => []
  end.

(** The calls a run added to the history. *)
Definition newCalls (before after : World) : list Call :=
  skipn (List.length (calls before)) (calls after).

(** The system: the world of the code and the journal of what happened to
    the merge commands. *)
Record System := { world : World; journal : list Happening }.

Definition startSystem : System := {| world := emptyWorld; journal := [] |}.

(** One operation on the system: the code runs on the world; the journal
    gets the acceptance, if the operation is one, and then the calls of
    the run. *)
Definition performOn (remote : Remote) (squashContext : string)
    (op : Operation) (s : System) : System :=
  let after := perform remote squashContext op (world s) in
  {| world := after;
     journal := journal s ++ acceptance op
                ++ map RemoteCall (newCalls (world s) after) |}.

(** The invariant of section 3 of the spec: the label is on an issue
    exactly when a command for it is outstanding. *)
Definition LabelInvariant (s : System) : Prop :=
  forall repo n,
    hasLabel (calls (world s)) repo n = outstanding (journal s) repo n.

(** The calls [cs] of a run that accepted [accepted] leave the label and
    the outstanding command equal when they were equal before. *)
Definition settles (accepted : list Happening) (cs : list Call) : Prop :=
  forall repo n b,
    fold_left (labelStep repo n) cs b
    = fold_left (outstandingStep repo n) (accepted ++ map RemoteCall cs) b.

(** Calls of a run that accepted nothing. *)
Definition balanced (cs : list Call) : Prop := settles [] cs.

(** States reached from the start by the operations of the core. *)
Inductive Reachable (remote : Remote) (squashContext : string)
  : System -> Prop :=
| reach_start : Reachable remote squashContext startSystem
| reach_step op s :
    Reachable remote squashContext s ->
    Reachable remote squashContext (performOn remote squashContext op s).

(* ================================================================== *)
(** ** Scripted collaborators for concrete runs *)

Module Scenario.

Definition repo : Repository := {| Owner := "owner"; Name := "repo" |}.
Definition alice : User := {| Login := "alice" |}.
Definition squashContext : string := "review/squash".

Definition mergeComment (n : Z) : IssueComment :=
  {| IC_IssueNumber := n; IC_Comment := "!merge";
     IC_Repository := repo; IC_User := alice |}.

Definition openPR : PullRequest :=
  {| Merged := Some false; Mergeable := Some true;
     HeadSHA := Some "abc123" |}.

Definition candidate (n : Z) (login : string) : GhIssue :=
  {| Gh_Number := Some n; Gh_User := Some {| Gh_Login := Some login |} |}.

Definition gateway (cause message : string) : ErrorResponse :=
  {| Error := ErrOther cause; Code := StatusBadGateway;
     ErrorMessage := message |}.

Definition successEvent : StatusEvent :=
  {| SE_SHA := "abc123"; SE_State := "success"; SE_Repository := repo;
     SE_Branches := [ {| Branch_Name := "feature";
                         Branch_SHA := "abc123" |} ] |}.

(** Answers that do not depend on the history. *)
Record Script := {
  s_addLabel : option ErrorResponse;
  s_pr : PullRequest;
  s_state : string;
  s_merge : Z -> option GoError;
  s_removeLabel : option ErrorResponse;
  s_comment : option GoError;
  s_found : list GhIssue
}.

Definition play (s : Script) : Remote :=
  {| r_addLabel := fun _ _ _ _ => s_addLabel s;
     r_removeLabel := fun _ _ _ _ => s_removeLabel s;
     r_getPR := fun _ _ => inl (s_pr s);
     r_getStatuses := fun _ _ => inl (s_state s, []);
     r_squashAndReportFailure := fun _ _ => SuccessResponse EmptyString;
     r_merge := fun _ _ n => s_merge s n;
     r_comment := fun _ _ _ _ => s_comment s;
     r_searchIssues := fun _ _ => inl (s_found s) |}.

Definition script (addLabelAnswer : option ErrorResponse)
    (pr : PullRequest) (mergeAnswer : Z -> option GoError)
    (commentAnswer : option GoError) (found : list GhIssue) : Script :=
  {| s_addLabel := addLabelAnswer; s_pr := pr; s_state := "success";
     s_merge := mergeAnswer; s_removeLabel := None;
     s_comment := commentAnswer; s_found := found |}.

(** Everything succeeds; the search finds PRs 1 and 2. *)
Definition allGood : Remote :=
  play (script None openPR (fun _ => None) None
          [candidate 1 "alice"; candidate 2 "bob"]).

(** The label cannot be added. *)
Definition labelDown : Remote :=
  play (script (Some (gateway "timeout" "Failed to add the label"))
          openPR (fun _ => None) None []).

(** The PR is already merged. *)
Definition alreadyMerged : Remote :=
  play (script None
          {| Merged := Some true; Mergeable := Some false;
             HeadSHA := Some "abc123" |}
          (fun _ => None) None []).

(** The PR has a conflict with its base branch. *)
Definition unmergeable : Remote :=
  play (script None
          {| Merged := Some false; Mergeable := Some false;
             HeadSHA := Some "abc123" |}
          (fun _ => None) None []).

(** The platform has not computed mergeability yet. *)
Definition mergeableUnknown : Remote :=
  play (script None
          {| Merged := Some false; Mergeable := None;
             HeadSHA := Some "abc123" |}
          (fun _ => None) None []).

(** Every merge call meets a conflict; the author is notified. *)
Definition conflicting : Remote :=
  play (script None openPR (fun _ => Some ErrMergeConflict) None
          [candidate 1 "alice"]).

(** Every merge call meets a conflict and the comment cannot be posted. *)
Definition conflictingSilent : Remote :=
  play (script None openPR (fun _ => Some ErrMergeConflict)
          (Some (ErrOther "comment refused")) []).

Definition fourCandidates : list GhIssue :=
  [candidate 1 "alice"; candidate 2 "bob";
   candidate 3 "carol"; candidate 4 "dave"].

(** Four candidates; the merges of PR 2 and PR 4 fail. *)
Definition secondAndFourthFail : Remote :=
  play (script None openPR
          (fun n => if Z.eqb n 2 then Some (ErrOther "merge of 2 refused")
                    else if Z.eqb n 4 then Some (ErrOther "merge of 4 refused")
                    else None)
          None fourCandidates).

Definition issueOf (n : Z) (login : string) : Issue :=
  {| Issue_Number := n; Issue_Repository := repo;
     Issue_User := {| Login := login |} |}.

Definition mergeFailure (n : Z) (login cause : string) : ErrorResponse :=
  {| Error := ErrOther cause; Code := StatusBadGateway;
     ErrorMessage :=
     ("Failed to merge PR " ++ FullName (issueOf n login))%string |}.

End Scenario.


(* ================================================================== *)
(** ** Further observations on runs *)

(** A call of the merge executor on the issue [(repo, n)]: the merge
    itself, the removal of the "merging" label, or a comment. *)
Definition executorCallOn (repo : Repository) (n : Z) (c : Call) : Prop :=
  match c with
  | CallMerge r m _ => r = repo /\ m = n
  | CallRemoveLabel r m label _ => r = repo /\ m = n /\ label = MergingLabel
  | CallComment _ r m _ => r = repo /\ m = n
  | _ => False
  end.

(** A call the merge executor may make, on whatever issue. *)
Definition isExecutorCall (c : Call) : bool :=
  match c with
  | CallMerge _ _ _ | CallRemoveLabel _ _ _ _ | CallComment _ _ _ _ => true
  | _ => false
  end.

Definition isAddLabelCall (c : Call) : bool :=
  match c with CallAddLabel _ _ _ _ => true | _ => false end.

Definition isSearchCall (c : Call) : bool :=
  match c with CallSearch _ _ => true | _ => false end.

(** The issue numbers of the merge calls of a history, in order. *)
Fixpoint mergeTargets (h : list Call) : list Z :=
  match h with
  | [] => []
  | CallMerge _ n _ :: rest => n :: mergeTargets rest
  | _ :: rest => mergeTargets rest
  end.

(** The numbers the search results carry, in order. *)
Fixpoint candidateNumbers (candidates : list GhIssue) : list Z :=
  match candidates with
  | [] => []
  | c :: rest =>
      match Gh_Number c with
      | Some n => n :: candidateNumbers rest
      | None => candidateNumbers rest
      end
  end.

(** A status entry that is the squash context in state pending. *)
Definition pendingSquashEntry (squashContext : string) (s : RepoStatus)
  : Prop :=
  RS_Context s = Some squashContext /\ RS_State s = Some "pending"%string.

(** A status entry the scan can read: it has a context, and a state when
    the context is the squash context. *)
Definition scannable (squashContext : string) (s : RepoStatus) : Prop :=
  exists ctx,
    RS_Context s = Some ctx
    /\ (ctx = squashContext -> exists st, RS_State s = Some st).

(** A status entry on which the scan dereferences nil. *)
Definition unreadable (squashContext : string) (s : RepoStatus) : Prop :=
  RS_Context s = None
  \/ (RS_Context s = Some squashContext /\ RS_State s = None).

Definition mergedLog (issue : Issue) : LogLine :=
  {| log_format := "PR %s successfully merged. Removing the '%s' label.\n";
     log_args := [ArgStr (FullName issue); ArgStr MergingLabel] |}.

Definition notMergingLog (issueComment : IssueComment) : LogLine :=
  {| log_format :=
       "PR #%d has pending and/or failed statuses. Not merging.\n";
     log_args := [ArgInt (IC_IssueNumber issueComment)] |}.

(** The response of the orchestrator after the merge executor. *)
Definition responseAfterMerge (issueComment : IssueComment)
    (o : Outcome (option ErrorResponse)) : Outcome Response :=
  match o with
  | Ret (Some e) => Ret (Failure e)
  | Ret None =>
      Ret (SuccessResponse
             ("Successfully merged PR "
              ++ FullName (IC_Issue issueComment))%string)
  | Panic => Panic
  end.

(** A line written when a batch error is replaced by a later one. *)
Definition isSupersededLine (l : LogLine) : bool :=
  String.eqb (log_format l)
    (log_format
       (supersededLog {| Error := ErrMergeConflict; Code := 0;
                         ErrorMessage := EmptyString |})).

Definition supersededLines (ls : list LogLine) : nat :=
  List.length (filter isSupersededLine ls).

(* ------------------------------------------------------------------ *)
(** *** More scripted collaborators *)

Module Outage.

Import Scenario.

Definition withPR (base : Remote) (answer : PullRequest + ErrorResponse)
  : Remote :=
  {| r_addLabel := r_addLabel base;
     r_removeLabel := r_removeLabel base;
     r_getPR := fun _ _ => answer;
     r_getStatuses := r_getStatuses base;
     r_squashAndReportFailure := r_squashAndReportFailure base;
     r_merge := r_merge base;
     r_comment := r_comment base;
     r_searchIssues := r_searchIssues base |}.

Definition withStatuses (base : Remote)
    (answer : string * list RepoStatus + ErrorResponse) : Remote :=
  {| r_addLabel := r_addLabel base;
     r_removeLabel := r_removeLabel base;
     r_getPR := r_getPR base;
     r_getStatuses := fun _ _ => answer;
     r_squashAndReportFailure := r_squashAndReportFailure base;
     r_merge := r_merge base;
     r_comment := r_comment base;
     r_searchIssues := r_searchIssues base |}.

Definition withRemoval (base : Remote) (answer : option ErrorResponse)
  : Remote :=
  {| r_addLabel := r_addLabel base;
     r_removeLabel := fun _ _ _ _ => answer;
     r_getPR := r_getPR base;
     r_getStatuses := r_getStatuses base;
     r_squashAndReportFailure := r_squashAndReportFailure base;
     r_merge := r_merge base;
     r_comment := r_comment base;
     r_searchIssues := r_searchIssues base |}.

Definition withSearch (base : Remote) (answer : list GhIssue + GoError)
  : Remote :=
  {| r_addLabel := r_addLabel base;
     r_removeLabel := r_removeLabel base;
     r_getPR := r_getPR base;
     r_getStatuses := r_getStatuses base;
     r_squashAndReportFailure := r_squashAndReportFailure base;
     r_merge := r_merge base;
     r_comment := r_comment base;
     r_searchIssues := fun _ _ => answer |}.

Definition fetchError : ErrorResponse :=
  gateway "connection reset" "Getting the PR failed".

Definition statusError : ErrorResponse :=
  gateway "connection reset" "Getting the statuses failed".

Definition removalError : ErrorResponse :=
  gateway "connection reset" "Removing the label failed".

(** The PR cannot be fetched. *)
Definition fetchDown : Remote := withPR allGood (inr fetchError).

(** The statuses cannot be fetched. *)
Definition statusDown : Remote := withStatuses allGood (inr statusError).

(** The label cannot be removed. *)
Definition removalDown : Remote := withRemoval allGood (Some removalError).

(** The label of an already merged PR cannot be removed. *)
Definition mergedRemovalDown : Remote :=
  withRemoval alreadyMerged (Some removalError).

(** The search is refused. *)
Definition searchDown : Remote :=
  withSearch allGood (inr (ErrOther "rate limited")).

Definition ciPending : RepoStatus :=
  {| RS_Context := Some "ci/build"%string; RS_State := None |}.

Definition squashPending : RepoStatus :=
  {| RS_Context := Some squashContext;
     RS_State := Some "pending"%string |}.

Definition squashDone : RepoStatus :=
  {| RS_Context := Some squashContext;
     RS_State := Some "success"%string |}.

Definition noContext : RepoStatus :=
  {| RS_Context := None; RS_State := Some "pending"%string |}.

(** The squash of the PR is still pending. *)
Definition squashing : Remote :=
  withStatuses allGood
    (inl ("pending"%string, [ciPending; squashPending; noContext])).

(** The checks of the PR are pending, its squash is done. *)
Definition checking : Remote :=
  withStatuses allGood (inl ("pending"%string, [ciPending; squashDone])).

(** The second search result carries no number. *)
Definition incompleteResults : list GhIssue :=
  [candidate 1 "alice";
   {| Gh_Number := None;
      Gh_User := Some {| Gh_Login := Some "bob"%string |} |};
   candidate 3 "carol"].

Definition incompleteSearch : Remote :=
  withSearch allGood (inl incompleteResults).

(** Four results of which the second and the fourth cannot be merged,
    then a result without a number. *)
Definition fiveResults : list GhIssue :=
  fourCandidates
  ++ [{| Gh_Number := None;
         Gh_User := Some {| Gh_Login := Some "erin"%string |} |}].

Definition failuresThenIncomplete : Remote :=
  withSearch secondAndFourthFail (inl fiveResults).

End Outage.

(* ================================================================== *)
(** ** Properties of [strings.TrimSpace] *)

Section Trim.

Lemma dropPrefix_Some p :
  forall s rest, dropPrefix p s = Some rest -> s = p ++ rest.
Proof.
  induction p as [|x p IH]; intros s rest H; simpl in *.
  - congruence.
  - destruct s as [|y s]; [discriminate|].
    destruct (Byte.eqb x y) eqn:E; [|discriminate].
    apply Byte.byte_dec_bl in E. subst y. f_equal. now apply IH.
Qed.

Lemma dropPrefix_app p rest : dropPrefix p (p ++ rest) = Some rest.
Proof.
  induction p as [|x p IH]; simpl; [reflexivity|].
  rewrite (Byte.byte_dec_lb (eq_refl x)). exact IH.
Qed.

Lemma dropOne_Some encs :
  forall s rest,
    dropOne encs s = Some rest -> exists e, In e encs /\ s = e ++ rest.
Proof.
  induction encs as [|e encs IH]; intros s rest H; simpl in *;
    [discriminate|].
  destruct (dropPrefix e s) as [r|] eqn:E.
  - inversion H; subst. exists e. split; [now left|].
    now apply dropPrefix_Some.
  - destruct (IH _ _ H) as [e' [Hin Hs]].
    exists e'. split; [now right|assumption].
Qed.

(** Trimming only removes a run of space runes. *)
Lemma trimWith_run encs :
  forall fuel s, exists l, runOf encs l /\ s = l ++ trimWith encs fuel s.
Proof.
  induction fuel as [|fuel IH]; intros s; simpl.
  - exists []. split; [constructor|reflexivity].
  - destruct (dropOne encs s) as [rest|] eqn:E.
    + destruct (dropOne_Some _ _ _ E) as [e [Hin Hs]].
      destruct (IH rest) as [l [Hl Hrest]].
      exists (e ++ l). split; [now constructor|].
      rewrite <- app_assoc, <- Hrest. exact Hs.
    + exists []. split; [constructor|reflexivity].
Qed.

Lemma dropOne_stop encs b s :
  noneStartsWith encs b = true -> dropOne encs (b :: s) = None.
Proof.
  unfold noneStartsWith.
  induction encs as [|e encs IH]; simpl; [reflexivity|].
  intros H. apply andb_true_iff in H. destruct H as [He Hr].
  destruct e as [|x e]; [discriminate|]. simpl.
  destruct (Byte.eqb x b); [discriminate|]. now apply IH.
Qed.

Lemma bytes_eqb_nil l : bytes_eqb l [] = true -> l = [].
Proof. destruct l; [reflexivity|discriminate]. Qed.

Lemma dropPrefix_comparable p :
  forall q a b,
    p ++ a = q ++ b ->
    (exists r, dropPrefix p q = Some r) \/ (exists r, dropPrefix q p = Some r).
Proof.
  induction p as [|x p IH]; intros q a b H.
  - left. simpl. eauto.
  - destruct q as [|y q].
    + right. simpl. eauto.
    + simpl in H. inversion H; subst. simpl.
      rewrite (Byte.byte_dec_lb (eq_refl y)).
      eapply IH; eauto.
Qed.

Lemma prefixFree_whole encs e e' r :
  prefixFree encs = true -> In e encs -> In e' encs ->
  dropPrefix e e' = Some r -> e' = e.
Proof.
  unfold prefixFree. rewrite forallb_forall. intros PF He He' Hr.
  specialize (PF _ He). apply andb_true_iff in PF. destruct PF as [_ P].
  rewrite forallb_forall in P. specialize (P _ He'). rewrite Hr in P.
  apply bytes_eqb_nil in P. subst r. apply dropPrefix_Some in Hr.
  now rewrite app_nil_r in Hr.
Qed.

Lemma prefixFree_unique encs e e' a b :
  prefixFree encs = true -> In e encs -> In e' encs ->
  e ++ a = e' ++ b -> a = b.
Proof.
  intros PF He He' H.
  assert (E : e = e').
  { destruct (dropPrefix_comparable _ _ _ _ H) as [[r Hr]|[r Hr]].
    - symmetry. eapply prefixFree_whole; eauto.
    - eapply prefixFree_whole; eauto. }
  subst e'. eapply app_inv_head; eauto.
Qed.

Lemma dropOne_finds encs e rest :
  In e encs -> dropOne encs (e ++ rest) <> None.
Proof.
  induction encs as [|x encs IH]; simpl; [contradiction|].
  intros [->|Hin].
  - now rewrite dropPrefix_app.
  - destruct (dropPrefix x (e ++ rest)); [discriminate|]. now apply IH.
Qed.

Lemma dropOne_enc encs e rest :
  prefixFree encs = true -> In e encs ->
  dropOne encs (e ++ rest) = Some rest.
Proof.
  intros PF Hin.
  destruct (dropOne encs (e ++ rest)) as [r|] eqn:E.
  - destruct (dropOne_Some _ _ _ E) as [e' [Hin' Hs]].
    now rewrite (prefixFree_unique _ _ _ _ _ PF Hin Hin' Hs).
  - now apply dropOne_finds in E.
Qed.

Lemma nonempty_enc encs e :
  prefixFree encs = true -> In e encs -> (1 <= List.length e)%nat.
Proof.
  unfold prefixFree. rewrite forallb_forall. intros PF Hin.
  specialize (PF _ Hin). apply andb_true_iff in PF. destruct PF as [P _].
  destruct e; [discriminate|simpl; lia].
Qed.

(** A run of space runes in front of a byte that starts no space rune
    is removed whole. *)
Lemma trimWith_strip encs b core :
  prefixFree encs = true -> noneStartsWith encs b = true ->
  forall l, runOf encs l ->
  forall fuel, (List.length l <= fuel)%nat ->
  trimWith encs fuel (l ++ b :: core) = b :: core.
Proof.
  intros PF NS l Hl. induction Hl as [|e l Hin Hl IH]; intros fuel Hf.
  - simpl. destruct fuel; simpl; [reflexivity|]. now rewrite dropOne_stop.
  - pose proof (nonempty_enc _ _ PF Hin) as Hlen.
    rewrite length_app in Hf.
    destruct fuel as [|fuel]; [lia|]. simpl.
    rewrite <- app_assoc, dropOne_enc by assumption.
    apply IH. lia.
Qed.

Lemma runOf_app encs a b :
  runOf encs a -> runOf encs b -> runOf encs (a ++ b).
Proof.
  induction 1; simpl; [trivial|].
  intros Hb. rewrite <- app_assoc. constructor; auto.
Qed.

Lemma runOf_one encs e : In e encs -> runOf encs e.
Proof.
  intros Hin. rewrite <- (app_nil_r e). constructor; [assumption|constructor].
Qed.

Lemma runOf_rev encs l :
  runOf (map (@rev byte) encs) l -> runOf encs (rev l).
Proof.
  induction 1 as [|e l Hin Hl IH]; [constructor|].
  rewrite rev_app_distr. apply runOf_app; [assumption|].
  apply in_map_iff in Hin. destruct Hin as [e0 [<- Hin0]].
  rewrite rev_involutive. now apply runOf_one.
Qed.

Lemma rev_runOf encs l :
  runOf encs l -> runOf (map (@rev byte) encs) (rev l).
Proof.
  induction 1 as [|e l Hin Hl IH]; [constructor|].
  rewrite rev_app_distr. apply runOf_app; [assumption|].
  apply runOf_one. now apply in_map.
Qed.

Lemma TrimSpaceBytes_decompose s :
  exists l r, spaceRun l /\ spaceRun r /\ s = l ++ TrimSpaceBytes s ++ r.
Proof.
  unfold TrimSpaceBytes, TrimRightSpace, TrimLeftSpace.
  destruct (trimWith_run spaceEncodings (List.length s) s) as [l [Hl Hs]].
  set (m := trimWith spaceEncodings (List.length s) s) in *.
  destruct (trimWith_run (map (@rev byte) spaceEncodings)
              (List.length m) (rev m)) as [r [Hr Hm]].
  exists l, (rev r). split; [assumption|]. split; [now apply runOf_rev|].
  rewrite <- rev_app_distr, <- Hm, rev_involutive. exact Hs.
Qed.

Lemma TrimSpaceBytes_merge l r :
  spaceRun l -> spaceRun r ->
  TrimSpaceBytes (l ++ mergeBytes ++ r) = mergeBytes.
Proof.
  intros Hl Hr. unfold TrimSpaceBytes, TrimLeftSpace.
  assert (L : trimWith spaceEncodings (List.length (l ++ mergeBytes ++ r))
                (l ++ mergeBytes ++ r) = mergeBytes ++ r).
  { change (mergeBytes ++ r) with (x21 :: (list_byte_of_string "merge" ++ r)).
    apply trimWith_strip; [reflexivity | reflexivity | assumption |].
    rewrite length_app. lia. }
  rewrite L. unfold TrimRightSpace.
  rewrite rev_app_distr.
  change (rev mergeBytes) with (x65 :: rev (list_byte_of_string "!merg")).
  rewrite trimWith_strip; [reflexivity | reflexivity | reflexivity | |].
  - now apply rev_runOf.
  - rewrite length_app, length_rev. lia.
Qed.

End Trim.

(** C9: the command detector accepts a comment body exactly when the body
    is the literal "!merge" between a run of leading and a run of trailing
    white space, that is, when the trimmed body equals "!merge"; a
    different case, white space inside the word or other text around it is
    refused. *)
Theorem isMergeCommand_iff_trimmed_literal :
  (forall body : string,
     isMergeCommand body = true <->
     exists l r, spaceRun l /\ spaceRun r /\
       list_byte_of_string body = l ++ list_byte_of_string "!merge" ++ r)
  /\ (forall body : string,
        isMergeCommand body = true <-> TrimSpace body = "!merge"%string)
  /\ isMergeCommand "  !merge " = true
  /\ isMergeCommand "!Merge" = false
  /\ isMergeCommand "!mer ge" = false
  /\ isMergeCommand "please !merge" = false
  /\ isMergeCommand "!merge now" = false.
Proof.
  assert (E : forall body, isMergeCommand body = true <->
                           TrimSpace body = "!merge"%string).
  { intros body. unfold isMergeCommand. apply String.eqb_eq. }
  split; [|split; [exact E|repeat split; reflexivity]].
  intros body. rewrite E. unfold TrimSpace. split.
  - intros H. apply (f_equal list_byte_of_string) in H.
    rewrite list_byte_of_string_of_list_byte in H.
    destruct (TrimSpaceBytes_decompose (list_byte_of_string body))
      as [l [r [Hl [Hr Hs]]]].
    exists l, r. rewrite H in Hs. auto.
  - intros [l [r [Hl [Hr Hs]]]]. rewrite Hs.
    fold mergeBytes. now rewrite TrimSpaceBytes_merge.
Qed.

(* ================================================================== *)
(** ** Status evaluator *)

Lemma isStatusForBranchHead_iff (statusEvent : StatusEvent) :
  isStatusForBranchHead statusEvent = true <->
  exists branch,
    In branch (SE_Branches statusEvent)
    /\ SE_SHA statusEvent = Branch_SHA branch.
Proof.
  unfold isStatusForBranchHead.
  induction (SE_Branches statusEvent) as [|b rest IH];
    cbn [isStatusForBranchHead_loop].
  - split; [discriminate|]. now intros [branch [[] _]].
  - unfold branchHeadMatches.
    destruct (String.eqb_spec (SE_SHA statusEvent) (Branch_SHA b)) as [E|E].
    + split; [|reflexivity]. intros _. exists b. split; [now left|exact E].
    + rewrite IH. split.
      * intros [branch [Hin Hsha]]. exists branch. split; [now right|exact Hsha].
      * intros [branch [[<-|Hin] Hsha]]; [contradiction|].
        now exists branch.
Qed.

Lemma newPullRequestsPossiblyReadyForMerging_iff (statusEvent : StatusEvent) :
  newPullRequestsPossiblyReadyForMerging statusEvent = true <->
  SE_State statusEvent = "success"%string
  /\ isStatusForBranchHead statusEvent = true.
Proof.
  unfold newPullRequestsPossiblyReadyForMerging.
  now rewrite andb_true_iff, String.eqb_eq.
Qed.

(* ================================================================== *)
(** ** Stepping through a run *)

Ltac unfold_core :=
  unfold handleMergeCommand, mergeReadyPR, handleMergeConflict,
    mergePullRequestsReadyForMerging,
    addLabel, removeLabel, getPR, getStatuses, merge, comment,
    squashAndReportFailure, searchIssues,
    bind, remoteCall, log_Printf, ret, deref;
  cbn [calls logs].

(** Replace the next remote answer by its value and continue the run. *)
Ltac answer H :=
  cbn [calls logs]; rewrite <- ?app_assoc; cbn [app];
  rewrite H; cbn [calls logs negb].

Ltac tidy := rewrite <- ?app_assoc; cbn [app]; try reflexivity.

(* ================================================================== *)
(** ** The comment-triggered orchestrator *)

Section Orchestrator.

Variable remote : Remote.
Variable squashContext : string.
Variable issueComment : IssueComment.

Let repo := IC_Repository issueComment.
Let n := IC_IssueNumber issueComment.
Let issue := IC_Issue issueComment.

(** C8: when the initial add of the "merging" label fails,
    handleMergeCommand returns that failure at once and the label call
    is the only remote call of the run. *)
Theorem addLabel_failure_aborts (w : World) (e : ErrorResponse) :
  r_addLabel remote (calls w) repo n MergingLabel = Some e ->
  handleMergeCommand remote squashContext issueComment w =
  (Ret (Failure e),
   {| calls := calls w ++ [CallAddLabel repo n MergingLabel (Some e)];
      logs := logs w |}).
Proof.
  intros Hadd. unfold_core. fold repo n. answer Hadd. reflexivity.
Qed.

(** C6: when the fetched PR is neither merged nor mergeable,
    handleMergeCommand returns Success and the run consists of the label
    add and the PR fetch only. *)
Theorem unmergeable_is_silent (w : World) (pr : PullRequest) :
  let labelled := CallAddLabel repo n MergingLabel None in
  r_addLabel remote (calls w) repo n MergingLabel = None ->
  r_getPR remote (calls w ++ [labelled]) issueComment = inl pr ->
  Merged pr = Some false ->
  Mergeable pr = Some false ->
  handleMergeCommand remote squashContext issueComment w =
  (Ret (SuccessResponse EmptyString),
   {| calls := calls w ++ [labelled; CallGetPR issueComment (inl pr)];
      logs := logs w |}).
Proof.
  intros labelled Hadd Hget Hmerged Hmergeable. unfold_core. fold repo n.
  answer Hadd. fold labelled. answer Hget. answer Hmerged.
  answer Hmergeable. tidy.
Qed.

(** With the label added and an unmerged PR fetched, a nil [Mergeable]
    makes [!*pr.Mergeable] panic. *)
Lemma unknown_mergeable_panics (w : World) (pr : PullRequest) :
  let labelled := CallAddLabel repo n MergingLabel None in
  r_addLabel remote (calls w) repo n MergingLabel = None ->
  r_getPR remote (calls w ++ [labelled]) issueComment = inl pr ->
  Merged pr = Some false ->
  Mergeable pr = None ->
  handleMergeCommand remote squashContext issueComment w =
  (Panic,
   {| calls := calls w ++ [labelled; CallGetPR issueComment (inl pr)];
      logs := logs w |}).
Proof.
  intros labelled Hadd Hget Hmerged Hmergeable. unfold_core. fold repo n.
  answer Hadd. fold labelled. answer Hget. answer Hmerged.
  answer Hmergeable. tidy.
Qed.

Lemma already_merged_once (w : World) :
  (forall h, r_addLabel remote h repo n MergingLabel = None) ->
  (forall h, r_removeLabel remote h repo n MergingLabel = None) ->
  (forall h, exists pr, r_getPR remote h issueComment = inl pr
                        /\ Merged pr = Some true) ->
  exists pr,
    Merged pr = Some true /\
    handleMergeCommand remote squashContext issueComment w =
    (Ret (SuccessResponse EmptyString),
     {| calls := calls w ++ alreadyMergedCalls issueComment pr;
        logs := logs w ++ [alreadyMergedLog issueComment] |}).
Proof.
  intros Hadd Hrm Hget. unfold_core. fold repo n.
  answer (Hadd (calls w)).
  destruct (Hget (calls w ++ [CallAddLabel repo n MergingLabel None]))
    as [pr [Hpr Hmerged]].
  exists pr. split; [assumption|].
  answer Hpr. answer Hmerged. answer Hrm. tidy.
Qed.

(** C5: on a PR that is fetched as merged, with working label calls,
    every run of handleMergeCommand returns Success after one label add,
    one fetch and one removal of the "merging" label, without a merge
    call; a second run right after the first behaves the same. *)
Theorem already_merged_idempotent (w : World) :
  (forall h, r_addLabel remote h repo n MergingLabel = None) ->
  (forall h, r_removeLabel remote h repo n MergingLabel = None) ->
  (forall h, exists pr, r_getPR remote h issueComment = inl pr
                        /\ Merged pr = Some true) ->
  exists pr1 pr2 w1 w2,
    handleMergeCommand remote squashContext issueComment w =
      (Ret (SuccessResponse EmptyString), w1)
    /\ handleMergeCommand remote squashContext issueComment w1 =
      (Ret (SuccessResponse EmptyString), w2)
    /\ calls w1 = calls w ++ alreadyMergedCalls issueComment pr1
    /\ calls w2 = calls w1 ++ alreadyMergedCalls issueComment pr2
    /\ countCalls isRemoveLabelCall (alreadyMergedCalls issueComment pr1)
       = 1%nat
    /\ countCalls isRemoveLabelCall (alreadyMergedCalls issueComment pr2)
       = 1%nat
    /\ countCalls isMergeCall
         (alreadyMergedCalls issueComment pr1
          ++ alreadyMergedCalls issueComment pr2) = 0%nat.
Proof.
  intros Hadd Hrm Hget.
  destruct (already_merged_once w Hadd Hrm Hget) as [pr1 [_ H1]].
  set (w1 := {| calls := calls w ++ alreadyMergedCalls issueComment pr1;
                logs := logs w ++ [alreadyMergedLog issueComment] |}) in *.
  destruct (already_merged_once w1 Hadd Hrm Hget) as [pr2 [_ H2]].
  exists pr1, pr2, w1. eexists.
  split; [exact H1|]. split; [exact H2|].
  repeat split.
Qed.

(** C10: when the merge call of a comment-triggered run meets a conflict
    and the conflict handler removes the label and posts its comment,
    handleMergeCommand returns Success with the message "Successfully
    merged PR <full name>" although no merge was performed. *)
Theorem handled_conflict_reported_as_merged (w : World) (pr : PullRequest)
    (statuses : list RepoStatus) :
  let c1 := CallAddLabel repo n MergingLabel None in
  let c2 := CallGetPR issueComment (inl pr) in
  let c3 := CallGetStatuses pr (inl ("success"%string, statuses)) in
  let c4 := CallMerge repo n (Some ErrMergeConflict) in
  let c5 := CallRemoveLabel repo n MergingLabel None in
  let c6 := CallComment (conflictMessage issue) repo n None in
  r_addLabel remote (calls w) repo n MergingLabel = None ->
  r_getPR remote (calls w ++ [c1]) issueComment = inl pr ->
  Merged pr = Some false ->
  Mergeable pr = Some true ->
  r_getStatuses remote (calls w ++ [c1; c2]) pr
    = inl ("success"%string, statuses) ->
  r_merge remote (calls w ++ [c1; c2; c3]) repo n = Some ErrMergeConflict ->
  r_removeLabel remote (calls w ++ [c1; c2; c3; c4]) repo n MergingLabel
    = None ->
  r_comment remote (calls w ++ [c1; c2; c3; c4; c5])
    (conflictMessage issue) repo n = None ->
  exists ls,
    handleMergeCommand remote squashContext issueComment w =
    (Ret (SuccessResponse ("Successfully merged PR " ++ FullName issue)),
     {| calls := calls w ++ [c1; c2; c3; c4; c5; c6];
        logs := logs w ++ ls |})
    /\ mergesPerformed [c1; c2; c3; c4; c5; c6] = 0%nat.
Proof.
  intros c1 c2 c3 c4 c5 c6 Hadd Hget Hmerged Hmergeable Hst Hmerge Hrm Hcm.
  eexists. split; [|reflexivity].
  unfold_core. fold repo n.
  answer Hadd. fold c1. answer Hget. fold c2.
  answer Hmerged. answer Hmergeable. answer Hst. fold c3.
  cbn [String.eqb Ascii.eqb Bool.eqb negb].
  cbn [Issue_Repository Issue_Number IC_Issue]. fold repo n.
  answer Hmerge. fold c4.
  cbn [Issue_Repository Issue_Number IC_Issue]. fold repo n.
  answer Hrm. fold c5. fold issue. answer Hcm. fold c6.
  rewrite <- ?app_assoc. cbn [app]. reflexivity.
Qed.

End Orchestrator.

(* ================================================================== *)
(** ** The merge executor and the conflict handler *)

Section Executor.

Variable remote : Remote.
Variable issue : Issue.

Let repo := Issue_Repository issue.
Let n := Issue_Number issue.

(** C2: when the merge call answers with the conflict error, the run of
    the executor is the merge call, one label removal and one comment
    that mentions the author, whatever the removal answered; the result
    is the comment's failure if the comment failed, else the removal's
    failure if the removal failed, else nil. *)
Theorem conflict_always_notifies (w : World) :
  let merged := CallMerge repo n (Some ErrMergeConflict) in
  let removal :=
    r_removeLabel remote (calls w ++ [merged]) repo n MergingLabel in
  let removed := CallRemoveLabel repo n MergingLabel removal in
  let posting :=
    r_comment remote (calls w ++ [merged; removed])
      (conflictMessage issue) repo n in
  let posted := CallComment (conflictMessage issue) repo n posting in
  r_merge remote (calls w) repo n = Some ErrMergeConflict ->
  mergeReadyPR remote issue w =
    (Ret match posting with
         | Some err =>
             Some {| Error := err; Code := StatusBadGateway;
                     ErrorMessage :=
                       ("Failed to notify the author of PR "
                        ++ FullName issue
                        ++ " about the merge conflict")%string |}
         | None => removal
         end,
     {| calls := calls w ++ [merged; removed; posted];
        logs := logs w ++ conflictLogs issue removal |})
  /\ countCalls isCommentCall [merged; removed; posted] = 1%nat
  /\ conflictMessage issue =
     ("I'm unable to merge this PR because of a merge conflict. @"
      ++ Login (Issue_User issue)
      ++ ", can you please take a look?")%string.
Proof.
  intros merged removal removed posting posted Hmerge.
  split; [|split; reflexivity].
  unfold_core. fold repo n. answer Hmerge. fold merged.
  fold removal. fold removed.
  destruct removal as [e|] eqn:Hrm; cbn [calls logs];
    rewrite <- ?app_assoc; cbn [app]; fold posting; fold posted;
    destruct posting as [err|]; tidy.
Qed.

(** One run of the executor: it returns, its answer and calls do not
    depend on the log, and a nil answer comes with one merge call that
    was accepted or met a conflict. *)
Lemma mergeReadyPR_frame (w : World) :
  exists r cs ls,
    mergeReadyPR remote issue w =
      (Ret r, {| calls := calls w ++ cs; logs := logs w ++ ls |})
    /\ mergeReadyPR remote issue {| calls := calls w; logs := [] |} =
      (Ret r, {| calls := calls w ++ cs; logs := ls |})
    /\ (r = None -> (mergesPerformed cs + conflictsMet cs = 1)%nat).
Proof.
  unfold_core. fold repo n.
  destruct (r_merge remote (calls w) repo n) as [[|m]|] eqn:Hmerge;
    cbn [calls logs].
  - destruct (r_removeLabel remote
                (calls w ++ [CallMerge repo n (Some ErrMergeConflict)])
                repo n MergingLabel) as [e|] eqn:Hrm; cbn [calls logs];
      match goal with
      | |- context [r_comment remote ?h ?m repo n] =>
          destruct (r_comment remote h m repo n) as [err|] eqn:Hcm
      end;
      do 3 eexists; (split; [|split]);
      try (rewrite <- ?app_assoc; cbn [app]; reflexivity);
      try discriminate; intros _; reflexivity.
  - do 3 eexists; (split; [|split]);
      try (rewrite <- (app_nil_r (logs w)) at 1; reflexivity);
      try reflexivity; discriminate.
  - destruct (r_removeLabel remote (calls w ++ [CallMerge repo n None])
                repo n MergingLabel) as [e|] eqn:Hrm; cbn [calls logs];
      do 3 eexists; (split; [|split]);
      try (rewrite <- ?app_assoc; cbn [app]; reflexivity);
      try discriminate; intros _; reflexivity.
Qed.

End Executor.

(* ================================================================== *)
(** ** The status-triggered batch *)

Section Batch.

Variable remote : Remote.
Variable repo : Repository.

Lemma lastFailure_snoc fs :
  forall fin x, lastFailure fin (fs ++ [x]) = Some x.
Proof. induction fs as [|e fs IH]; intros; simpl; auto. Qed.

Lemma superseded_previous fs :
  forall p, fs <> [] -> In p (superseded (Some p) fs).
Proof. destruct fs; intros; [congruence|now left]. Qed.

Lemma superseded_snoc fs :
  forall fin x e, In e fs -> In e (superseded fin (fs ++ [x])).
Proof.
  induction fs as [|a fs IH]; intros fin x e Hin; [contradiction|].
  assert (H : In e (superseded (Some a) (fs ++ [x]))).
  { destruct Hin as [->|Hin]; [|now apply IH].
    apply superseded_previous. now destruct fs. }
  simpl. destruct fin; [now right|assumption].
Qed.

(** One turn of the loop on a candidate with number and author. *)
Lemma mergeAll_cons (n : Z) (login : string) rest fin w :
  mergeAll remote repo
    ({| Gh_Number := Some n; Gh_User := Some {| Gh_Login := Some login |} |}
     :: rest) fin w =
  match
    mergeReadyPR remote
      {| Issue_Number := n; Issue_Repository := repo;
         Issue_User := {| Login := login |} |} w
  with
  | (Ret (Some e), w1) =>
      match fin with
      | None => mergeAll remote repo rest (Some e) w1
      | Some previous =>
          mergeAll remote repo rest (Some e)
            {| calls := calls w1;
               logs := logs w1 ++ [supersededLog previous] |}
      end
  | (Ret None, w1) => mergeAll remote repo rest fin w1
  | (Panic, w1) => (Panic, w1)
  end.
Proof.
  cbn [mergeAll]. unfold bind, deref, log_Printf.
  cbn [Gh_Number Gh_User Gh_Login].
  destruct (mergeReadyPR remote _ w) as [[[e|]|] w1]; destruct fin;
    reflexivity.
Qed.

Lemma countCalls_app p a b :
  countCalls p (a ++ b) = (countCalls p a + countCalls p b)%nat.
Proof. unfold countCalls. now rewrite filter_app, length_app. Qed.

(** The loop returns the last failure, logs every failure it replaces
    and, when no candidate failed, made one accepted or conflicting
    merge call per candidate. *)
Lemma mergeAll_spec candidates :
  forall fin w,
    Forall wellFormedCandidate candidates ->
    let results := executorResults remote repo candidates (calls w) in
    exists batch ls,
      mergeAll remote repo candidates fin w =
        (Ret (lastFailure fin (failures results)),
         {| calls := calls w ++ batch; logs := logs w ++ ls |})
      /\ (forall e, In e (superseded fin (failures results)) ->
                    In (supersededLog e) ls)
      /\ (allSucceeded results ->
          (mergesPerformed batch + conflictsMet batch
           = List.length candidates)%nat).
Proof.
  induction candidates as [|c rest IH]; intros fin w Hwf results.
  - exists [], []. destruct w as [cs ls]. cbn. rewrite !app_nil_r.
    repeat split; [contradiction].
  - inversion Hwf as [|? ? [n [login ->]] Hrest]; subst.
    rewrite mergeAll_cons.
    set (issue := {| Issue_Number := n; Issue_Repository := repo;
                     Issue_User := {| Login := login |} |}) in *.
    destruct (mergeReadyPR_frame remote issue w)
      as [r [cs [ls [Hrun [Hpure Hone]]]]].
    assert (Hres : results =
                   r :: executorResults remote repo rest (calls w ++ cs)).
    { subst results. cbn [executorResults candidateIssue Gh_Number Gh_User
                           Gh_Login]. fold issue. now rewrite Hpure. }
    rewrite Hrun, Hres. clear Hres results.
    destruct r as [e|].
    + destruct fin as [previous|].
      * destruct (IH (Some e)
                    {| calls := calls w ++ cs;
                       logs := (logs w ++ ls) ++ [supersededLog previous] |}
                    Hrest) as [batch [ls' [Hloop [Hlog _]]]].
        cbn [calls logs] in *.
        exists (cs ++ batch), (ls ++ supersededLog previous :: ls').
        rewrite Hloop. split; [|split].
        -- cbn [failures lastFailure]. f_equal. f_equal.
           ++ now rewrite app_assoc.
           ++ now rewrite <- !app_assoc.
        -- cbn [failures superseded]. intros x [<-|Hx].
           ++ apply in_or_app. right. now left.
           ++ apply in_or_app. right. right. now apply Hlog.
        -- unfold allSucceeded. cbn [failures]. discriminate.
      * destruct (IH (Some e)
                    {| calls := calls w ++ cs; logs := logs w ++ ls |}
                    Hrest) as [batch [ls' [Hloop [Hlog _]]]].
        cbn [calls logs] in *.
        exists (cs ++ batch), (ls ++ ls').
        rewrite Hloop. split; [|split].
        -- cbn [failures lastFailure]. now rewrite !app_assoc.
        -- cbn [failures superseded]. intros x Hx.
           apply in_or_app. right. now apply Hlog.
        -- unfold allSucceeded. cbn [failures]. discriminate.
    + destruct (IH fin
                  {| calls := calls w ++ cs; logs := logs w ++ ls |}
                  Hrest) as [batch [ls' [Hloop [Hlog Hcount]]]].
      cbn [calls logs] in *.
      exists (cs ++ batch), (ls ++ ls').
      rewrite Hloop. split; [|split].
      * cbn [failures]. now rewrite !app_assoc.
      * cbn [failures]. intros x Hx.
        apply in_or_app. right. now apply Hlog.
      * unfold allSucceeded in *. cbn [failures]. intros Hall.
        unfold mergesPerformed, conflictsMet in *.
        rewrite !countCalls_app. cbn [List.length].
        specialize (Hone eq_refl). specialize (Hcount Hall). lia.
Qed.

End Batch.

Section StatusEvent.

Variable remote : Remote.
Variable statusEvent : StatusEvent.
Variable w : World.
Variable candidates : list GhIssue.

Let query := searchQuery statusEvent.
Let searched := CallSearch query (inl candidates).
Let results :=
  executorResults remote (SE_Repository statusEvent) candidates
    (calls w ++ [searched]).

Hypothesis search_answer :
  r_searchIssues remote (calls w) query = inl candidates.
Hypothesis candidates_complete : Forall wellFormedCandidate candidates.

(** The batch after a successful search: the search call, then the
    loop. *)
Lemma batch_after_search :
  exists batch ls,
    mergePullRequestsReadyForMerging remote statusEvent w =
      (Ret match lastFailure None (failures results) with
           | Some e => Failure e
           | None =>
               SuccessResponse
                 ("Successfully merged "
                  ++ utoa (List.length candidates) ++ " PRs")
           end,
       {| calls := calls w ++ searched :: batch; logs := logs w ++ ls |})
    /\ (forall e, In e (superseded None (failures results)) ->
                  In (supersededLog e) ls)
    /\ (allSucceeded results ->
        (mergesPerformed batch + conflictsMet batch
         = List.length candidates)%nat).
Proof.
  destruct (mergeAll_spec remote (SE_Repository statusEvent) candidates
              None {| calls := calls w ++ [searched]; logs := logs w |}
              candidates_complete)
    as [batch [ls [Hloop [Hlog Hcount]]]].
  cbn [calls logs] in Hloop, Hlog, Hcount. fold results in Hloop, Hlog, Hcount.
  exists batch, ls. split; [|split; assumption].
  unfold mergePullRequestsReadyForMerging, searchIssues, bind at 1,
    remoteCall.
  fold query. rewrite search_answer. fold searched.
  unfold bind. rewrite Hloop.
  rewrite <- app_assoc. cbn [app].
  destruct (lastFailure None (failures results)); reflexivity.
Qed.

(** C3 (amended): for search results that all carry a number and an
    author login, when candidates fail, the batch answers with the
    failure of the last failing candidate and has logged every failure
    that came before it; with failures on candidates 2 and 4 only, the
    answer is the failure of candidate 4 and the failure of candidate 2
    is logged. *)
Theorem batch_returns_last_failure :
  (forall earlier lastErr,
     failures results = earlier ++ [lastErr] ->
     exists batch ls,
       mergePullRequestsReadyForMerging remote statusEvent w =
         (Ret (Failure lastErr),
          {| calls := calls w ++ searched :: batch;
             logs := logs w ++ ls |})
       /\ forall e, In e earlier -> In (supersededLog e) ls)
  /\ (forall e2 e4 others,
        results = [None; Some e2; None; Some e4] ++ others ->
        allSucceeded others ->
        exists batch ls,
          mergePullRequestsReadyForMerging remote statusEvent w =
            (Ret (Failure e4),
             {| calls := calls w ++ searched :: batch;
                logs := logs w ++ ls |})
          /\ In (supersededLog e2) ls).
Proof.
  assert (General : forall earlier lastErr,
     failures results = earlier ++ [lastErr] ->
     exists batch ls,
       mergePullRequestsReadyForMerging remote statusEvent w =
         (Ret (Failure lastErr),
          {| calls := calls w ++ searched :: batch;
             logs := logs w ++ ls |})
       /\ forall e, In e earlier -> In (supersededLog e) ls).
  { intros earlier lastErr Hfs.
    destruct batch_after_search as [batch [ls [Hrun [Hlog _]]]].
    exists batch, ls. rewrite Hrun, Hfs, lastFailure_snoc.
    split; [reflexivity|].
    intros e He. apply Hlog. rewrite Hfs. now apply superseded_snoc. }
  split; [exact General|].
  intros e2 e4 others Hres Hall.
  destruct (General [e2] e4) as [batch [ls [Hrun Hlog]]].
  { rewrite Hres. cbn [app failures]. unfold allSucceeded in Hall.
    now rewrite Hall. }
  exists batch, ls. split; [exact Hrun|]. apply Hlog. now left.
Qed.

(** C4 (amended): when the executor reports no failure for any
    candidate, also for no candidate at all, the batch answers Success
    with the number of candidates in the message; each candidate stands
    for one merge call that was accepted or that met a conflict the
    handler resolved, so the number is the count of merges performed
    when no merge call met a conflict.  For two candidates the message
    is "Successfully merged 2 PRs". *)
Theorem batch_success_counts_candidates :
  allSucceeded results ->
  exists batch ls,
    mergePullRequestsReadyForMerging remote statusEvent w =
      (Ret (SuccessResponse
              ("Successfully merged "
               ++ utoa (List.length candidates) ++ " PRs")),
       {| calls := calls w ++ searched :: batch; logs := logs w ++ ls |})
    /\ (mergesPerformed batch + conflictsMet batch
        = List.length candidates)%nat
    /\ (conflictsMet batch = 0%nat ->
        mergesPerformed batch = List.length candidates)
    /\ (List.length candidates = 2%nat ->
        ("Successfully merged "
         ++ utoa (List.length candidates) ++ " PRs")%string
        = "Successfully merged 2 PRs"%string).
Proof.
  intros Hall.
  destruct batch_after_search as [batch [ls [Hrun [_ Hcount]]]].
  exists batch, ls. rewrite Hrun. unfold allSucceeded in Hall.
  rewrite Hall. cbn [lastFailure]. specialize (Hcount Hall).
  repeat split; [assumption|lia|].
  intros ->. reflexivity.
Qed.

End StatusEvent.

(* ================================================================== *)
(** ** The label invariant *)

Section Invariant.

Variable remote : Remote.
Variable squashContext : string.

Hypothesis labels_ok : labelCallsSucceed remote.
Hypothesis comments_ok : commentsSucceed remote.

Lemma balanced_nil : balanced [].
Proof. intros repo n b. reflexivity. Qed.

Lemma settles_app accepted a b :
  settles accepted a -> balanced b -> settles accepted (a ++ b).
Proof.
  intros Ha Hb repo n x. unfold balanced, settles in Hb. cbn [app] in Hb.
  rewrite map_app, app_assoc.
  rewrite (fold_left_app _ a b),
    (fold_left_app _ (accepted ++ map RemoteCall a) (map RemoteCall b)).
  rewrite Ha. apply Hb.
Qed.

Lemma balanced_app a b : balanced a -> balanced b -> balanced (a ++ b).
Proof. apply settles_app. Qed.

Lemma newCalls_app (before after : World) cs :
  calls after = calls before ++ cs -> newCalls before after = cs.
Proof.
  unfold newCalls. intros ->.
  induction (calls before) as [|c h IH]; [reflexivity|exact IH].
Qed.

(** A run whose calls settle what it accepted keeps the invariant. *)
Lemma invariant_extends (s : System) (after : World) accepted cs :
  calls after = calls (world s) ++ cs ->
  LabelInvariant s -> settles accepted cs ->
  LabelInvariant
    {| world := after;
       journal := journal s ++ accepted ++ map RemoteCall cs |}.
Proof.
  intros Hcalls Hinv Hcs repo n. cbn [world journal].
  unfold hasLabel, outstanding. rewrite Hcalls, !fold_left_app.
  fold (hasLabel (calls (world s)) repo n) (outstanding (journal s) repo n).
  rewrite Hinv, <- fold_left_app. apply Hcs.
Qed.

(** Settle a concrete list of calls on one issue. *)
Ltac settle :=
  intros repo0 n0 b;
  cbn [fold_left labelStep outstandingStep map app acceptance];
  rewrite ?String.eqb_refl, ?andb_true_r;
  repeat match goal with
         | H : Merged _ = _ |- _ => rewrite H
         end;
  repeat match goal with
         | |- context [sameIssue repo0 n0 ?r ?m] =>
             destruct (sameIssue repo0 n0 r m)
         end;
  reflexivity.

Lemma handleMergeConflict_balanced issue w :
  exists o cs ls,
    handleMergeConflict remote issue w =
      (o, {| calls := calls w ++ cs; logs := logs w ++ ls |})
    /\ balanced cs.
Proof.
  destruct labels_ok as [_ Hrm].
  unfold_core. rewrite Hrm. cbn [calls logs]. rewrite comments_ok.
  do 3 eexists. split; [tidy|]. settle.
Qed.

Lemma mergeReadyPR_balanced issue w :
  exists o cs ls,
    mergeReadyPR remote issue w =
      (o, {| calls := calls w ++ cs; logs := logs w ++ ls |})
    /\ balanced cs.
Proof.
  destruct labels_ok as [_ Hrm].
  unfold_core.
  destruct (r_merge remote (calls w) (Issue_Repository issue)
              (Issue_Number issue)) as [[|m]|] eqn:Hmerge;
    cbn [calls logs]; rewrite ?Hrm; cbn [calls logs];
    rewrite ?comments_ok.
  - do 3 eexists. split; [tidy|]. settle.
  - do 3 eexists. split.
    + rewrite <- (app_nil_r (logs w)) at 1. reflexivity.
    + settle.
  - do 3 eexists. split; [tidy|]. settle.
Qed.

(** Scanning the statuses makes no call and writes no log. *)
Lemma containsPendingSquashStatus_pure statuses w :
  exists o, containsPendingSquashStatus squashContext statuses w = (o, w).
Proof.
  induction statuses as [|s rest [o IH]]; cbn [containsPendingSquashStatus].
  - now exists (Ret false).
  - unfold bind, deref, ret.
    destruct (RS_Context s) as [ctx|]; [|now exists Panic].
    destruct (String.eqb ctx squashContext); [|now exists o].
    destruct (RS_State s) as [st|]; [|now exists Panic].
    destruct (String.eqb st "pending"); [now exists (Ret true)|now exists o].
Qed.

(** The orchestrator accepts the command of its comment; its calls, the
    label add first, settle it. *)
Lemma handleMergeCommand_settles issueComment w :
  exists o cs ls,
    handleMergeCommand remote squashContext issueComment w =
      (o, {| calls := calls w ++ cs; logs := logs w ++ ls |})
    /\ settles (acceptance (OpHandleMergeCommand issueComment)) cs.
Proof.
  destruct labels_ok as [Hadd Hrm].
  unfold handleMergeCommand, addLabel, removeLabel, getPR, getStatuses,
    squashAndReportFailure, bind, remoteCall, log_Printf, ret, deref.
  cbn [calls logs]. rewrite Hadd. cbn [calls logs].
  match goal with
  | |- context [r_getPR remote ?h issueComment] =>
      destruct (r_getPR remote h issueComment) as [pr|e] eqn:Hget
  end; cbn [calls logs].
  2: { do 3 eexists. split.
       - rewrite <- ?app_assoc, <- (app_nil_r (logs w)) at 1. cbn [app].
         reflexivity.
       - settle. }
  destruct (Merged pr) as [[|]|] eqn:Hmerged; cbn [calls logs].
  - rewrite Hrm. do 3 eexists. split; [tidy|]. settle.
  - destruct (Mergeable pr) as [[|]|] eqn:Hmergeable; cbn [calls logs negb].
    + match goal with
      | |- context [r_getStatuses remote ?h pr] =>
          destruct (r_getStatuses remote h pr) as [[state statuses]|e]
            eqn:Hst
      end; cbn [calls logs].
      2: { do 3 eexists. split.
           - rewrite <- ?app_assoc, <- (app_nil_r (logs w)) at 1.
             cbn [app]. reflexivity.
           - settle. }
      match goal with
      | |- context [(if String.eqb state "pending" then ?a else ?b) ?w0] =>
          assert (Hscan : exists o, (if String.eqb state "pending"
                                     then a else b) w0 = (o, w0))
      end.
      { destruct (String.eqb state "pending").
        - apply containsPendingSquashStatus_pure.
        - now exists (Ret false). }
      destruct Hscan as [scan Hscan]. rewrite Hscan.
      destruct scan as [[|]|]; cbn [calls logs].
      * do 3 eexists. split.
        -- rewrite <- ?app_assoc, <- (app_nil_r (logs w)) at 1.
           cbn [app]. reflexivity.
        -- settle.
      * destruct (String.eqb state "success"); cbn [negb calls logs].
        -- match goal with
           | |- context [mergeReadyPR remote ?i ?w0] =>
               destruct (mergeReadyPR_balanced i w0)
                 as [o [cs [ls [Hrun Hbal]]]]
           end.
           rewrite Hrun. cbn [calls logs] in *.
           exists (match o with
                   | Ret (Some e) => Ret (Failure e)
                   | Ret None =>
                       Ret (SuccessResponse
                              ("Successfully merged PR "
                               ++ FullName (IC_Issue issueComment)))
                   | Panic => Panic
                   end).
           do 2 eexists. split.
           ++ destruct o as [[e|]|]; rewrite <- ?app_assoc; cbn [app];
                reflexivity.
           ++ apply (settles_app _ [_; _; _]); [settle|exact Hbal].
        -- do 3 eexists. split; [tidy|]. settle.
      * do 3 eexists. split.
        -- rewrite <- ?app_assoc, <- (app_nil_r (logs w)) at 1.
           cbn [app]. reflexivity.
        -- settle.
    + do 3 eexists. split.
      * rewrite <- ?app_assoc, <- (app_nil_r (logs w)) at 1.
        cbn [app]. reflexivity.
      * settle.
    + do 3 eexists. split.
      * rewrite <- ?app_assoc, <- (app_nil_r (logs w)) at 1.
        cbn [app]. reflexivity.
      * settle.
  - do 3 eexists. split.
    + rewrite <- ?app_assoc, <- (app_nil_r (logs w)) at 1.
      cbn [app]. reflexivity.
    + settle.
Qed.

Lemma world_eta (w : World) :
  w = {| calls := calls w ++ []; logs := logs w ++ [] |}.
Proof. destruct w. cbn. now rewrite !app_nil_r. Qed.

Lemma mergeAll_balanced repo candidates :
  forall fin w,
    exists o cs ls,
      mergeAll remote repo candidates fin w =
        (o, {| calls := calls w ++ cs; logs := logs w ++ ls |})
      /\ balanced cs.
Proof.
  induction candidates as [|c rest IH]; intros fin w.
  - exists (Ret fin), [], []. split; [|apply balanced_nil].
    cbn [mergeAll]. unfold ret. now rewrite <- world_eta.
  - destruct c as [[n|] [[[login|]]|]];
      try (exists Panic, [], []; split; [|apply balanced_nil];
           cbn [mergeAll]; unfold bind, deref;
           cbn [Gh_Number Gh_User Gh_Login];
           now rewrite <- world_eta).
    rewrite mergeAll_cons.
    match goal with
    | |- context [mergeReadyPR remote ?i w] =>
        destruct (mergeReadyPR_balanced i w) as [o [cs [ls [Hrun Hbal]]]]
    end.
    rewrite Hrun.
    destruct o as [[e|]|].
    + destruct fin as [previous|].
      * destruct (IH (Some e)
                    {| calls := calls w ++ cs;
                       logs := (logs w ++ ls) ++ [supersededLog previous] |})
          as [o' [cs' [ls' [Hloop Hbal']]]].
        cbn [calls logs] in *. rewrite Hloop.
        exists o', (cs ++ cs'), (ls ++ supersededLog previous :: ls').
        split; [|now apply balanced_app].
        f_equal. f_equal; [now rewrite app_assoc|now rewrite <- !app_assoc].
      * destruct (IH (Some e)
                    {| calls := calls w ++ cs; logs := logs w ++ ls |})
          as [o' [cs' [ls' [Hloop Hbal']]]].
        cbn [calls logs] in *. rewrite Hloop.
        exists o', (cs ++ cs'), (ls ++ ls').
        split; [|now apply balanced_app]. now rewrite !app_assoc.
    + destruct (IH fin {| calls := calls w ++ cs; logs := logs w ++ ls |})
        as [o' [cs' [ls' [Hloop Hbal']]]].
      cbn [calls logs] in *. rewrite Hloop.
      exists o', (cs ++ cs'), (ls ++ ls').
      split; [|now apply balanced_app]. now rewrite !app_assoc.
    + exists Panic, cs, ls. split; [reflexivity|assumption].
Qed.

Lemma mergePullRequestsReadyForMerging_balanced statusEvent w :
  exists o cs ls,
    mergePullRequestsReadyForMerging remote statusEvent w =
      (o, {| calls := calls w ++ cs; logs := logs w ++ ls |})
    /\ balanced cs.
Proof.
  unfold mergePullRequestsReadyForMerging, searchIssues, bind at 1,
    remoteCall.
  destruct (r_searchIssues remote (calls w) (searchQuery statusEvent))
    as [found|err] eqn:Hsearch.
  - unfold bind.
    match goal with
    | |- context [mergeAll remote ?r found None ?w0] =>
        destruct (mergeAll_balanced r found None w0)
          as [o [cs [ls [Hloop Hbal]]]]
    end.
    rewrite Hloop. cbn [calls logs] in *.
    exists (match o with
            | Ret (Some e) => Ret (Failure e)
            | Ret None =>
                Ret (SuccessResponse
                       ("Successfully merged "
                        ++ utoa (List.length found) ++ " PRs"))
            | Panic => Panic
            end).
    do 2 eexists. split.
    + destruct o as [[e|]|]; rewrite <- ?app_assoc; cbn [app]; reflexivity.
    + apply (balanced_app [_]); [settle|exact Hbal].
  - do 3 eexists. split.
    + unfold ret. rewrite <- (app_nil_r (logs w)) at 1. reflexivity.
    + settle.
Qed.

Lemma perform_settles op w :
  exists cs, calls (perform remote squashContext op w) = calls w ++ cs
             /\ settles (acceptance op) cs.
Proof.
  destruct op as [ic|issue|issue|ev]; cbn [perform].
  - destruct (handleMergeCommand_settles ic w) as [o [cs [ls [-> H]]]].
    now exists cs.
  - destruct (mergeReadyPR_balanced issue w) as [o [cs [ls [-> H]]]].
    now exists cs.
  - destruct (handleMergeConflict_balanced issue w) as [o [cs [ls [-> H]]]].
    now exists cs.
  - destruct (mergePullRequestsReadyForMerging_balanced ev w)
      as [o [cs [ls [-> H]]]].
    now exists cs.
Qed.

End Invariant.


(* ================================================================== *)
(** ** Concrete runs *)

Section Runs.

Import Scenario.

(** The scenario of PR 7: label added, merge invoked, label removed. *)
Example merge_command_on_ready_PR :
  handleMergeCommand allGood squashContext (mergeComment 7) emptyWorld =
  (Ret (SuccessResponse "Successfully merged PR owner/repo#7"),
   {| calls :=
        [CallAddLabel repo 7 MergingLabel None;
         CallGetPR (mergeComment 7) (inl openPR);
         CallGetStatuses openPR (inl ("success"%string, []));
         CallMerge repo 7 None;
         CallRemoveLabel repo 7 MergingLabel None];
      logs :=
        [{| log_format :=
              "PR %s successfully merged. Removing the '%s' label.\n";
            log_args := [ArgStr "owner/repo#7"; ArgStr MergingLabel] |}] |}).
Proof. reflexivity. Qed.

Example success_event_on_branch_head :
  newPullRequestsPossiblyReadyForMerging successEvent = true.
Proof. reflexivity. Qed.

Example search_query_of_success_event :
  searchQuery successEvent =
  ("abc123 label:" ++ quote ++ "merging" ++ quote
   ++ " is:open repo:owner/repo status:success")%string.
Proof. reflexivity. Qed.

(** C7: the data model lets [Mergeable] be unknown, and on such a PR
    (label added, PR fetched, not merged) the evaluation of
    [!*pr.Mergeable] does not return a Response: the run panics after
    the label add and the fetch. *)
Theorem unknown_mergeable_faults :
  handleMergeCommand mergeableUnknown squashContext (mergeComment 9)
    emptyWorld =
  (Panic,
   {| calls :=
        [CallAddLabel repo 9 MergingLabel None;
         CallGetPR (mergeComment 9)
           (inl {| Merged := Some false; Mergeable := None;
                   HeadSHA := Some "abc123"%string |})];
      logs := [] |}).
Proof.
  apply (unknown_mergeable_panics mergeableUnknown squashContext
           (mergeComment 9) emptyWorld); reflexivity.
Qed.

(** The label service is down: the run stops after the label call. *)
Lemma addLabel_failure_aborts_witness :
  r_addLabel labelDown [] repo 7 MergingLabel
    = Some (gateway "timeout" "Failed to add the label")
  /\ handleMergeCommand labelDown squashContext (mergeComment 7) emptyWorld =
     (Ret (Failure (gateway "timeout" "Failed to add the label")),
      {| calls := [CallAddLabel repo 7 MergingLabel
                     (Some (gateway "timeout" "Failed to add the label"))];
         logs := [] |}).
Proof.
  split; [reflexivity|].
  apply (addLabel_failure_aborts labelDown squashContext (mergeComment 7)
           emptyWorld (gateway "timeout" "Failed to add the label")).
  reflexivity.
Defined.

(** Scenario of PR 9: the label is added, nothing else happens. *)
Lemma unmergeable_is_silent_witness :
  handleMergeCommand unmergeable squashContext (mergeComment 9) emptyWorld =
  (Ret (SuccessResponse EmptyString),
   {| calls :=
        [CallAddLabel repo 9 MergingLabel None;
         CallGetPR (mergeComment 9)
           (inl {| Merged := Some false; Mergeable := Some false;
                   HeadSHA := Some "abc123"%string |})];
      logs := [] |}).
Proof.
  apply (unmergeable_is_silent unmergeable squashContext (mergeComment 9)
           emptyWorld); reflexivity.
Defined.

(** Two runs on an already merged PR 7. *)
Lemma already_merged_idempotent_witness :
  exists pr1 pr2 w1 w2,
    handleMergeCommand alreadyMerged squashContext (mergeComment 7) emptyWorld =
      (Ret (SuccessResponse EmptyString), w1)
    /\ handleMergeCommand alreadyMerged squashContext (mergeComment 7) w1 =
      (Ret (SuccessResponse EmptyString), w2)
    /\ calls w1 = alreadyMergedCalls (mergeComment 7) pr1
    /\ calls w2 = calls w1 ++ alreadyMergedCalls (mergeComment 7) pr2
    /\ countCalls isRemoveLabelCall
         (alreadyMergedCalls (mergeComment 7) pr1) = 1%nat
    /\ countCalls isRemoveLabelCall
         (alreadyMergedCalls (mergeComment 7) pr2) = 1%nat
    /\ countCalls isMergeCall
         (alreadyMergedCalls (mergeComment 7) pr1
          ++ alreadyMergedCalls (mergeComment 7) pr2) = 0%nat.
Proof.
  apply (already_merged_idempotent alreadyMerged squashContext
           (mergeComment 7) emptyWorld).
  - intros h. reflexivity.
  - intros h. reflexivity.
  - intros h. eexists. split; reflexivity.
Defined.

(** PR 7 meets a conflict, the author is told, the answer says merged. *)
Lemma handled_conflict_reported_as_merged_witness :
  exists ls,
    handleMergeCommand conflicting squashContext (mergeComment 7) emptyWorld =
    (Ret (SuccessResponse "Successfully merged PR owner/repo#7"),
     {| calls :=
          [CallAddLabel repo 7 MergingLabel None;
           CallGetPR (mergeComment 7) (inl openPR);
           CallGetStatuses openPR (inl ("success"%string, []));
           CallMerge repo 7 (Some ErrMergeConflict);
           CallRemoveLabel repo 7 MergingLabel None;
           CallComment (conflictMessage (IC_Issue (mergeComment 7)))
             repo 7 None];
        logs := ls |})
    /\ mergesPerformed
         [CallAddLabel repo 7 MergingLabel None;
          CallGetPR (mergeComment 7) (inl openPR);
          CallGetStatuses openPR (inl ("success"%string, []));
          CallMerge repo 7 (Some ErrMergeConflict);
          CallRemoveLabel repo 7 MergingLabel None;
          CallComment (conflictMessage (IC_Issue (mergeComment 7)))
            repo 7 None] = 0%nat.
Proof.
  apply (handled_conflict_reported_as_merged conflicting squashContext
           (mergeComment 7) emptyWorld openPR []); reflexivity.
Defined.

(** The executor on a conflicting PR 7 of alice. *)
Lemma conflict_always_notifies_witness :
  mergeReadyPR conflicting (issueOf 7 "alice") emptyWorld =
    (Ret None,
     {| calls :=
          [CallMerge repo 7 (Some ErrMergeConflict);
           CallRemoveLabel repo 7 MergingLabel None;
           CallComment (conflictMessage (issueOf 7 "alice")) repo 7 None];
        logs := conflictLogs (issueOf 7 "alice") None |})
  /\ conflictMessage (issueOf 7 "alice") =
     "I'm unable to merge this PR because of a merge conflict. @alice, can you please take a look?"%string.
Proof.
  destruct (conflict_always_notifies conflicting (issueOf 7 "alice") emptyWorld
              eq_refl) as [Hrun [_ Hmessage]].
  split; [exact Hrun|exact Hmessage].
Defined.

Lemma candidate_wellFormed n login : wellFormedCandidate (candidate n login).
Proof. now exists n, login. Qed.

(** Four candidates, the merges of PR 2 and PR 4 are refused. *)
Lemma batch_returns_last_failure_witness :
  exists batch ls,
    mergePullRequestsReadyForMerging secondAndFourthFail successEvent
      emptyWorld =
      (Ret (Failure (mergeFailure 4 "dave" "merge of 4 refused")),
       {| calls :=
            CallSearch (searchQuery successEvent) (inl fourCandidates)
            :: batch;
          logs := ls |})
    /\ In (supersededLog (mergeFailure 2 "bob" "merge of 2 refused")) ls.
Proof.
  refine (proj2 (batch_returns_last_failure secondAndFourthFail successEvent
                   emptyWorld fourCandidates eq_refl _)
            (mergeFailure 2 "bob" "merge of 2 refused")
            (mergeFailure 4 "dave" "merge of 4 refused") [] _ _).
  - repeat constructor; apply candidate_wellFormed.
  - reflexivity.
  - reflexivity.
Defined.

(** C3, as stated, fails.  With failures on candidates 2 and 4 only
    (both merges refused), the answer is the failure of candidate 4 and
    the failure of candidate 2 is logged, but no log line carries the
    failure of candidate 4.  And when a fifth result carries no number,
    the same two failures are followed by a panic: no response is
    returned. *)
Lemma batch_last_failure_not_logged :
  executorResults secondAndFourthFail repo fourCandidates
    [CallSearch (searchQuery successEvent) (inl fourCandidates)]
  = [None; Some (mergeFailure 2 "bob" "merge of 2 refused");
     None; Some (mergeFailure 4 "dave" "merge of 4 refused")]
  /\ fst (mergePullRequestsReadyForMerging secondAndFourthFail successEvent
            emptyWorld)
     = Ret (Failure (mergeFailure 4 "dave" "merge of 4 refused"))
  /\ errorLogged (mergeFailure 2 "bob" "merge of 2 refused")
       (logs (snd (mergePullRequestsReadyForMerging secondAndFourthFail
                     successEvent emptyWorld))) = true
  /\ errorLogged (mergeFailure 4 "dave" "merge of 4 refused")
       (logs (snd (mergePullRequestsReadyForMerging secondAndFourthFail
                     successEvent emptyWorld))) = false
  /\ failures
       (executorResults Outage.failuresThenIncomplete repo
          Outage.fiveResults
          [CallSearch (searchQuery successEvent) (inl Outage.fiveResults)])
     = [mergeFailure 2 "bob" "merge of 2 refused";
        mergeFailure 4 "dave" "merge of 4 refused"]
  /\ fst (mergePullRequestsReadyForMerging Outage.failuresThenIncomplete
            successEvent emptyWorld)
     = Panic.
Proof. repeat split; vm_compute; reflexivity. Qed.

(** Two ready PRs, both merged. *)
Lemma batch_success_counts_candidates_witness :
  exists batch ls,
    mergePullRequestsReadyForMerging allGood successEvent emptyWorld =
      (Ret (SuccessResponse "Successfully merged 2 PRs"),
       {| calls :=
            CallSearch (searchQuery successEvent)
              (inl [candidate 1 "alice"; candidate 2 "bob"])
            :: batch;
          logs := ls |})
    /\ mergesPerformed batch = 2%nat.
Proof.
  destruct (batch_success_counts_candidates allGood successEvent emptyWorld
              [candidate 1 "alice"; candidate 2 "bob"] eq_refl
              (Forall_cons _ (candidate_wellFormed 1 "alice")
                 (Forall_cons _ (candidate_wellFormed 2 "bob")
                    (Forall_nil _)))
              eq_refl)
    as [batch [ls [Hrun [Hcount _]]]].
  exists batch, ls. split; [exact Hrun|].
  cbn [calls] in Hrun.
  injection Hrun as Hbatch _. rewrite <- Hbatch. reflexivity.
Defined.

(** C4, as stated, fails: the single candidate meets a merge conflict
    that the handler resolves, so the executor reports no failure and
    the batch answers "Successfully merged 1 PRs", yet no merge was
    performed. *)
Lemma batch_counts_handled_conflict :
  allSucceeded
    (executorResults conflicting repo [candidate 1 "alice"]
       [CallSearch (searchQuery successEvent)
          (inl [candidate 1 "alice"])])
  /\ fst (mergePullRequestsReadyForMerging conflicting successEvent
            emptyWorld)
     = Ret (SuccessResponse "Successfully merged 1 PRs")
  /\ mergesPerformed
       (calls (snd (mergePullRequestsReadyForMerging conflicting
                      successEvent emptyWorld))) = 0%nat
  /\ conflictsMet
       (calls (snd (mergePullRequestsReadyForMerging conflicting
                      successEvent emptyWorld))) = 1%nat.
Proof. repeat split; vm_compute; reflexivity. Qed.



(** The label add of the orchestrator is what keeps the invariant: when
    it fails, the command is accepted and the issue carries no label. *)
Example invariant_needs_the_label_add :
  hasLabel
    (calls (world (performOn labelDown squashContext
                     (OpHandleMergeCommand (mergeComment 7)) startSystem)))
    repo 7 = false
  /\ outstanding
       (journal (performOn labelDown squashContext
                   (OpHandleMergeCommand (mergeComment 7)) startSystem))
       repo 7 = true.
Proof. split; reflexivity. Qed.

(** The journal of a merged command: accepted, labelled, merged. *)
Example journal_of_merged_command :
  journal (performOn allGood squashContext
             (OpHandleMergeCommand (mergeComment 7)) startSystem)
  = [CommandAccepted repo 7;
     RemoteCall (CallAddLabel repo 7 MergingLabel None);
     RemoteCall (CallGetPR (mergeComment 7) (inl openPR));
     RemoteCall (CallGetStatuses openPR (inl ("success"%string, [])));
     RemoteCall (CallMerge repo 7 None);
     RemoteCall (CallRemoveLabel repo 7 MergingLabel None)].
Proof. reflexivity. Qed.

End Runs.


(* ================================================================== *)
(** ** The status evaluator *)

Section StatusScan.

Variable squashContext : string.

(** X1: the status is for a branch head exactly when some branch of the
    event has the event's SHA; with no branch it never is. *)
Theorem branch_head_iff_some_branch_has_sha :
  (forall statusEvent,
     isStatusForBranchHead statusEvent = true <->
     exists branch,
       In branch (SE_Branches statusEvent)
       /\ Branch_SHA branch = SE_SHA statusEvent)
  /\ (forall sha state repo,
        isStatusForBranchHead
          {| SE_SHA := sha; SE_State := state; SE_Repository := repo;
             SE_Branches := [] |} = false).
Proof.
  split; [|reflexivity].
  intros statusEvent. rewrite isStatusForBranchHead_iff.
  split; intros [branch [Hin Hsha]]; exists branch; auto.
Qed.

(** X2: a status event can make PRs ready exactly when its state is
    "success" and its SHA is the head of one of its branches; any other
    state is ignored whatever the branches. *)
Theorem only_success_on_branch_head_triggers :
  (forall statusEvent,
     newPullRequestsPossiblyReadyForMerging statusEvent = true <->
     SE_State statusEvent = "success"%string
     /\ exists branch,
          In branch (SE_Branches statusEvent)
          /\ Branch_SHA branch = SE_SHA statusEvent)
  /\ (forall sha branches repo,
        newPullRequestsPossiblyReadyForMerging
          {| SE_SHA := sha; SE_State := "pending"; SE_Repository := repo;
             SE_Branches := branches |} = false)
  /\ (forall sha branches repo,
        newPullRequestsPossiblyReadyForMerging
          {| SE_SHA := sha; SE_State := "failure"; SE_Repository := repo;
             SE_Branches := branches |} = false).
Proof.
  split; [|split; reflexivity].
  intros statusEvent.
  rewrite newPullRequestsPossiblyReadyForMerging_iff,
    isStatusForBranchHead_iff.
  split; intros [Hstate [branch [Hin Hsha]]]; (split; [assumption|]);
    exists branch; auto.
Qed.

Lemma scan_step_other (s : RepoStatus) rest w ctx :
  RS_Context s = Some ctx -> ctx <> squashContext ->
  containsPendingSquashStatus squashContext (s :: rest) w =
  containsPendingSquashStatus squashContext rest w.
Proof.
  intros Hctx Hne. cbn [containsPendingSquashStatus].
  unfold bind, deref. rewrite Hctx.
  now destruct (String.eqb_spec ctx squashContext).
Qed.

Lemma scan_step_squash (s : RepoStatus) rest w st :
  RS_Context s = Some squashContext -> RS_State s = Some st ->
  containsPendingSquashStatus squashContext (s :: rest) w =
  if String.eqb st "pending" then (Ret true, w)
  else containsPendingSquashStatus squashContext rest w.
Proof.
  intros Hctx Hst. cbn [containsPendingSquashStatus].
  unfold bind, deref, ret. rewrite Hctx, String.eqb_refl, Hst.
  now destruct (String.eqb st "pending").
Qed.

Lemma scan_step_unreadable (s : RepoStatus) rest w :
  unreadable squashContext s ->
  containsPendingSquashStatus squashContext (s :: rest) w = (Panic, w).
Proof.
  intros [Hctx|[Hctx Hst]]; cbn [containsPendingSquashStatus];
    unfold bind, deref; rewrite Hctx; [reflexivity|].
  now rewrite String.eqb_refl, Hst.
Qed.

(** The scan of a readable prefix without a pending squash entry goes on
    with what follows. *)
Lemma scan_skips_prefix pre :
  forall rest w,
    Forall (scannable squashContext) pre ->
    (forall s, In s pre -> ~ pendingSquashEntry squashContext s) ->
    containsPendingSquashStatus squashContext (pre ++ rest) w =
    containsPendingSquashStatus squashContext rest w.
Proof.
  induction pre as [|s pre IH]; intros rest w Hread Hnone; [reflexivity|].
  inversion Hread as [|? ? [ctx [Hctx Hstate]] Hpre]; subst.
  cbn [app].
  assert (Hnone' : forall x, In x pre -> ~ pendingSquashEntry squashContext x)
    by (intros x Hx; apply Hnone; now right).
  destruct (String.eqb_spec ctx squashContext) as [->|Hne].
  - destruct (Hstate eq_refl) as [st Hst].
    rewrite (scan_step_squash s _ w st Hctx Hst).
    destruct (String.eqb_spec st "pending") as [->|Hst'].
    + exfalso. apply (Hnone s); [now left|]. now split.
    + now apply IH.
  - rewrite (scan_step_other s _ w ctx Hctx Hne). now apply IH.
Qed.

(** X3: on status entries that all carry a context, and a state when the
    context is the squash context, the scan returns without a call or a
    log line, and it returns true exactly when some entry has the squash
    context and the state "pending". *)
Theorem pending_squash_scan_iff (statuses : list RepoStatus) (w : World) :
  Forall (scannable squashContext) statuses ->
  exists found,
    containsPendingSquashStatus squashContext statuses w = (Ret found, w)
    /\ (found = true <->
        exists s, In s statuses /\ pendingSquashEntry squashContext s).
Proof.
  induction statuses as [|s rest IH]; intros Hread.
  - exists false. split; [reflexivity|].
    split; [discriminate|]. now intros [s [[] _]].
  - inversion Hread as [|? ? [ctx [Hctx Hstate]] Hrest]; subst.
    destruct (IH Hrest) as [found [Hrun Hiff]].
    assert (Later : (exists x, In x (s :: rest)
                               /\ pendingSquashEntry squashContext x) ->
                    pendingSquashEntry squashContext s \/ found = true).
    { intros [x [[<-|Hx] Hp]]; [now left|]. right. apply Hiff. eauto. }
    destruct (String.eqb_spec ctx squashContext) as [->|Hne].
    + destruct (Hstate eq_refl) as [st Hst].
      rewrite (scan_step_squash s _ w st Hctx Hst).
      destruct (String.eqb_spec st "pending") as [->|Hst'].
      * exists true. split; [reflexivity|]. split; [|reflexivity].
        intros _. exists s. split; [now left|now split].
      * exists found. split; [exact Hrun|]. split.
        -- intros Hf. apply Hiff in Hf. destruct Hf as [x [Hx Hp]].
           exists x. split; [now right|exact Hp].
        -- intros Hex. destruct (Later Hex) as [[_ Hp]|Hf]; [|exact Hf].
           congruence.
    + rewrite (scan_step_other s _ w ctx Hctx Hne).
      exists found. split; [exact Hrun|]. split.
      * intros Hf. apply Hiff in Hf. destruct Hf as [x [Hx Hp]].
        exists x. split; [now right|exact Hp].
      * intros Hex. destruct (Later Hex) as [[Hc _]|Hf]; [|exact Hf].
        congruence.
Qed.

(** The scan stops at the first pending squash entry. *)
Lemma scan_hit pre hit post w :
  Forall (scannable squashContext) pre ->
  pendingSquashEntry squashContext hit ->
  containsPendingSquashStatus squashContext (pre ++ hit :: post) w
  = (Ret true, w).
Proof.
  intros Hread [Hctx Hst].
  induction pre as [|s pre IH]; cbn [app].
  - now rewrite (scan_step_squash hit _ w _ Hctx Hst).
  - inversion Hread as [|? ? [ctx [Hc Hstate]] Hpre]; subst.
    destruct (String.eqb_spec ctx squashContext) as [->|Hne].
    + destruct (Hstate eq_refl) as [st Hs].
      rewrite (scan_step_squash s _ w st Hc Hs).
      destruct (String.eqb st "pending"); [reflexivity|now apply IH].
    + rewrite (scan_step_other s _ w ctx Hc Hne). now apply IH.
Qed.

(** X4: the scan returns true at the first entry with the squash context
    and the state "pending"; the entries after it are not read, whatever
    they hold, nil fields included. *)
Theorem pending_squash_scan_stops_at_first_hit
    (pre post : list RepoStatus) (hit : RepoStatus) (w : World) :
  Forall (scannable squashContext) pre ->
  pendingSquashEntry squashContext hit ->
  containsPendingSquashStatus squashContext (pre ++ hit :: post) w
  = (Ret true, w).
Proof. intros Hread Hhit. now apply scan_hit. Qed.

(** X5: when the scan meets an entry with a nil context, or with the
    squash context and a nil state, before any pending squash entry, it
    panics on the nil dereference. *)
Theorem pending_squash_scan_panics_on_nil
    (pre post : list RepoStatus) (bad : RepoStatus) (w : World) :
  Forall (scannable squashContext) pre ->
  (forall s, In s pre -> ~ pendingSquashEntry squashContext s) ->
  unreadable squashContext bad ->
  containsPendingSquashStatus squashContext (pre ++ bad :: post) w
  = (Panic, w).
Proof.
  intros Hread Hnone Hbad.
  rewrite (scan_skips_prefix pre _ w Hread Hnone).
  now apply scan_step_unreadable.
Qed.

End StatusScan.

(* ================================================================== *)
(** ** The paths of the orchestrator *)

Section OrchestratorPaths.

Variable remote : Remote.
Variable squashContext : string.
Variable issueComment : IssueComment.
Variable w : World.

Let repo := IC_Repository issueComment.
Let n := IC_IssueNumber issueComment.
Let issue := IC_Issue issueComment.
Let labelled := CallAddLabel repo n MergingLabel None.

Hypothesis label_added :
  r_addLabel remote (calls w) repo n MergingLabel = None.

(** X6: when the PR cannot be fetched, handleMergeCommand returns the
    fetch error after the label add and the fetch; the label is not
    removed and nothing else is called. *)
Theorem fetch_failure_is_returned (e : ErrorResponse) :
  r_getPR remote (calls w ++ [labelled]) issueComment = inr e ->
  handleMergeCommand remote squashContext issueComment w =
  (Ret (Failure e),
   {| calls := calls w ++ [labelled; CallGetPR issueComment (inr e)];
      logs := logs w |}).
Proof.
  intros Hget. unfold_core. fold repo n. answer label_added.
  fold labelled. answer Hget. tidy.
Qed.

(** X7: on a PR that is already merged, a failing removal of the
    "merging" label is returned as the response. *)
Theorem already_merged_removal_failure_is_returned
    (pr : PullRequest) (e : ErrorResponse) :
  let fetched := CallGetPR issueComment (inl pr) in
  r_getPR remote (calls w ++ [labelled]) issueComment = inl pr ->
  Merged pr = Some true ->
  r_removeLabel remote (calls w ++ [labelled; fetched]) repo n MergingLabel
    = Some e ->
  handleMergeCommand remote squashContext issueComment w =
  (Ret (Failure e),
   {| calls := calls w ++ [labelled; fetched;
                           CallRemoveLabel repo n MergingLabel (Some e)];
      logs := logs w ++ [alreadyMergedLog issueComment] |}).
Proof.
  intros fetched Hget Hmerged Hrm. unfold_core. fold repo n.
  answer label_added. fold labelled. answer Hget. fold fetched.
  answer Hmerged. answer Hrm. tidy.
Qed.

Section Mergeable.

Variable pr : PullRequest.

Let fetched := CallGetPR issueComment (inl pr).

Hypothesis pr_fetched :
  r_getPR remote (calls w ++ [labelled]) issueComment = inl pr.
Hypothesis not_merged : Merged pr = Some false.
Hypothesis mergeable : Mergeable pr = Some true.

(** X8: when the statuses cannot be fetched, handleMergeCommand returns
    that error; no squash, merge, comment or label removal follows. *)
Theorem status_failure_is_returned (e : ErrorResponse) :
  r_getStatuses remote (calls w ++ [labelled; fetched]) pr = inr e ->
  handleMergeCommand remote squashContext issueComment w =
  (Ret (Failure e),
   {| calls := calls w ++ [labelled; fetched; CallGetStatuses pr (inr e)];
      logs := logs w |}).
Proof.
  intros Hst. unfold_core. fold repo n.
  answer label_added. fold labelled. answer pr_fetched. fold fetched.
  answer not_merged. answer mergeable. answer Hst. tidy.
Qed.

Section Statuses.

Variable state : string.
Variable statuses : list RepoStatus.

Let checked := CallGetStatuses pr (inl (state, statuses)).

Hypothesis statuses_fetched :
  r_getStatuses remote (calls w ++ [labelled; fetched]) pr
  = inl (state, statuses).

(** The run up to the decision on the statuses. *)
Lemma run_to_statuses :
  handleMergeCommand remote squashContext issueComment w =
  bind (if String.eqb state "pending"
        then containsPendingSquashStatus squashContext statuses
        else ret false)
    (fun pendingSquash =>
       if pendingSquash then squashAndReportFailure remote pr
       else if negb (String.eqb state "success") then
         bind (log_Printf
                 "PR #%d has pending and/or failed statuses. Not merging.\n"
                 [ArgInt n])
           (fun _ => ret (SuccessResponse EmptyString))
       else
         bind (mergeReadyPR remote issue)
           (fun errResp =>
              match errResp with
              | Some e => ret (Failure e)
              | None =>
                  ret (SuccessResponse
                         ("Successfully merged PR " ++ FullName issue))
              end))
    {| calls := calls w ++ [labelled; fetched; checked]; logs := logs w |}.
Proof.
  unfold handleMergeCommand, addLabel, getPR, getStatuses.
  unfold bind at 1, remoteCall at 1. fold repo n. rewrite label_added.
  unfold bind at 1, remoteCall at 1. cbn [calls logs]. fold labelled.
  rewrite pr_fetched.
  unfold bind at 1, deref at 1. rewrite not_merged.
  unfold bind at 1, deref at 1. rewrite mergeable. cbn [negb].
  unfold bind at 1, remoteCall at 1. cbn [calls logs].
  rewrite <- app_assoc. cbn [app]. fold fetched. rewrite statuses_fetched.
  rewrite <- app_assoc. cbn [app]. reflexivity.
Qed.

(** X9: when the combined state is "pending" and a pending squash status
    is found, handleMergeCommand runs the squash step and returns what it
    reports; it makes no merge call and leaves the label. *)
Theorem pending_squash_is_retried (pre post : list RepoStatus)
    (hit : RepoStatus) :
  let answer :=
    r_squashAndReportFailure remote
      (calls w ++ [labelled; fetched; checked]) pr in
  state = "pending"%string ->
  statuses = pre ++ hit :: post ->
  Forall (scannable squashContext) pre ->
  pendingSquashEntry squashContext hit ->
  handleMergeCommand remote squashContext issueComment w =
  (Ret answer,
   {| calls := calls w ++ [labelled; fetched; checked;
                           CallSquash pr answer];
      logs := logs w |}).
Proof.
  intros answer Hstate Hsplit Hread Hhit. rewrite run_to_statuses.
  assert (Htrue :
            (if String.eqb state "pending"
             then containsPendingSquashStatus squashContext statuses
             else ret false)
              {| calls := calls w ++ [labelled; fetched; checked];
                 logs := logs w |}
            = (Ret true,
               {| calls := calls w ++ [labelled; fetched; checked];
                  logs := logs w |})).
  { destruct (String.eqb_spec state "pending") as [_|Hp]; [|contradiction].
    rewrite Hsplit at 1. now apply scan_hit. }
  unfold bind at 1. rewrite Htrue.
  unfold squashAndReportFailure, remoteCall. cbn [calls logs].
  fold answer. tidy.
Qed.

(** X10: when the combined state is not "success" and no pending squash
    status calls for a retry, handleMergeCommand answers Success with an
    empty message and waits: it makes no merge call and leaves the
    label. *)
Theorem unfinished_statuses_wait :
  state <> "success"%string ->
  (state = "pending"%string ->
   Forall (scannable squashContext) statuses
   /\ forall s, In s statuses -> ~ pendingSquashEntry squashContext s) ->
  handleMergeCommand remote squashContext issueComment w =
  (Ret (SuccessResponse EmptyString),
   {| calls := calls w ++ [labelled; fetched; checked];
      logs := logs w ++ [notMergingLog issueComment] |}).
Proof.
  intros Hnot Hscan. rewrite run_to_statuses.
  assert (Hfalse :
            (if String.eqb state "pending"
             then containsPendingSquashStatus squashContext statuses
             else ret false)
              {| calls := calls w ++ [labelled; fetched; checked];
                 logs := logs w |}
            = (Ret false,
               {| calls := calls w ++ [labelled; fetched; checked];
                  logs := logs w |})).
  { destruct (String.eqb_spec state "pending") as [Hp|Hp]; [|reflexivity].
    destruct (Hscan Hp) as [Hread Hnone].
    rewrite <- (app_nil_r statuses).
    now rewrite (scan_skips_prefix squashContext statuses [] _ Hread Hnone). }
  unfold bind at 1. rewrite Hfalse.
  destruct (String.eqb_spec state "success") as [Hs|_]; [contradiction|].
  reflexivity.
Qed.

(** X11: when the combined state is "success", the rest of the run is the
    run of the merge executor on the comment's issue: Success with
    "Successfully merged PR <full name>" when the executor returns nil,
    else the executor's error. *)
Theorem ready_PR_runs_the_executor :
  state = "success"%string ->
  handleMergeCommand remote squashContext issueComment w =
  (responseAfterMerge issueComment
     (fst (mergeReadyPR remote issue
             {| calls := calls w ++ [labelled; fetched; checked];
                logs := logs w |})),
   snd (mergeReadyPR remote issue
          {| calls := calls w ++ [labelled; fetched; checked];
             logs := logs w |})).
Proof.
  intros Hstate. rewrite run_to_statuses.
  unfold bind at 1.
  destruct (String.eqb_spec state "pending") as [Hp|_]; [congruence|].
  destruct (String.eqb_spec state "success") as [_|Hs]; [|contradiction].
  unfold ret at 1. cbn [negb]. unfold bind at 1.
  destruct (mergeReadyPR remote issue _) as [[[e|]|] w']; reflexivity.
Qed.

(** X12: on a PR that is not merged, is mergeable and has the combined
    state "success", a merge that succeeds is followed by the removal of
    the label, and the response is Success with "Successfully merged PR
    <full name>". *)
Theorem ready_PR_is_merged :
  let merged := CallMerge repo n None in
  let unlabelled := CallRemoveLabel repo n MergingLabel None in
  state = "success"%string ->
  r_merge remote (calls w ++ [labelled; fetched; checked]) repo n = None ->
  r_removeLabel remote (calls w ++ [labelled; fetched; checked; merged])
    repo n MergingLabel = None ->
  handleMergeCommand remote squashContext issueComment w =
  (Ret (SuccessResponse ("Successfully merged PR " ++ FullName issue)),
   {| calls := calls w ++ [labelled; fetched; checked; merged; unlabelled];
      logs := logs w ++ [mergedLog issue] |}).
Proof.
  intros merged unlabelled Hstate Hmerge Hrm. rewrite run_to_statuses.
  unfold bind at 1.
  destruct (String.eqb_spec state "pending") as [Hp|_]; [congruence|].
  destruct (String.eqb_spec state "success") as [_|Hs]; [|contradiction].
  unfold ret at 1. cbn [negb].
  unfold_core. unfold issue.
  cbn [Issue_Repository Issue_Number IC_Issue]. fold repo n.
  answer Hmerge. fold merged. answer Hrm. tidy.
Qed.

End Statuses.

End Mergeable.

End OrchestratorPaths.

(* ================================================================== *)
(** ** The runs of the merge executor *)

Section ExecutorRuns.

Variable remote : Remote.
Variable issue : Issue.
Variable w : World.

Let repo := Issue_Repository issue.
Let n := Issue_Number issue.

(** X13: when the merge fails with an error that is not the conflict
    error, mergeReadyPR returns a bad-gateway error "Failed to merge PR
    <full name>" with that cause; the merge call is its only call, so the
    label stays and no comment is posted. *)
Theorem merge_failure_keeps_label (cause : string) :
  r_merge remote (calls w) repo n = Some (ErrOther cause) ->
  mergeReadyPR remote issue w =
  (Ret (Some {| Error := ErrOther cause; Code := 502;
                ErrorMessage := ("Failed to merge PR "
                                 ++ FullName issue)%string |}),
   {| calls := calls w ++ [CallMerge repo n (Some (ErrOther cause))];
      logs := logs w |}).
Proof.
  intros Hmerge. unfold_core. fold repo n. answer Hmerge. reflexivity.
Qed.

(** X14: when the merge succeeds, mergeReadyPR removes the "merging"
    label once and returns what the removal answered: nil when it
    worked, its error when it failed although the PR is merged. *)
Theorem merge_success_returns_removal_answer :
  let merged := CallMerge repo n None in
  let removal :=
    r_removeLabel remote (calls w ++ [merged]) repo n MergingLabel in
  r_merge remote (calls w) repo n = None ->
  mergeReadyPR remote issue w =
  (Ret removal,
   {| calls := calls w ++ [merged;
                           CallRemoveLabel repo n MergingLabel removal];
      logs := logs w ++ [mergedLog issue] |}).
Proof.
  intros merged removal Hmerge. unfold_core. fold repo n.
  answer Hmerge. fold merged. fold removal.
  destruct removal; tidy.
Qed.

(** Every run of the executor: it returns, it starts with the one merge
    call, the calls after it are on the same issue and its log holds no
    line of the batch. *)
Lemma mergeReadyPR_shape :
  exists r answer rest ls,
    mergeReadyPR remote issue w =
      (Ret r, {| calls := calls w ++ CallMerge repo n answer :: rest;
                 logs := logs w ++ ls |})
    /\ Forall (executorCallOn repo n) rest
    /\ mergeTargets rest = []
    /\ forallb isExecutorCall rest = true
    /\ countCalls isRemoveLabelCall rest
       = match answer with Some (ErrOther _) => 0%nat | _ => 1%nat end
    /\ countCalls isCommentCall rest
       = match answer with Some ErrMergeConflict => 1%nat | _ => 0%nat end
    /\ supersededLines ls = 0%nat.
Proof.
  unfold_core. fold repo n.
  destruct (r_merge remote (calls w) repo n) as [[|m]|] eqn:Hmerge;
    cbn [calls logs].
  - destruct (r_removeLabel remote
                (calls w ++ [CallMerge repo n (Some ErrMergeConflict)])
                repo n MergingLabel) as [e|] eqn:Hrm; cbn [calls logs];
      match goal with
      | |- context [r_comment remote ?h ?m repo n] =>
          destruct (r_comment remote h m repo n) as [err|] eqn:Hcm
      end;
      do 4 eexists; (split; [tidy|]);
      repeat split; repeat constructor.
  - exists (Some {| Error := ErrOther m; Code := StatusBadGateway;
                    ErrorMessage := ("Failed to merge PR "
                                     ++ FullName issue)%string |}),
      (Some (ErrOther m)), [], [].
    rewrite app_nil_r. repeat split. constructor.
  - destruct (r_removeLabel remote (calls w ++ [CallMerge repo n None])
                repo n MergingLabel) as [e|] eqn:Hrm; cbn [calls logs];
      do 4 eexists; (split; [tidy|]);
      repeat split; repeat constructor.
Qed.

Lemma no_merge_targets (h : list Call) :
  mergeTargets h = [] -> List.length (filter isMergeCall h) = 0%nat.
Proof.
  induction h as [|c h IH]; [reflexivity|].
  destruct c; cbn [mergeTargets filter isMergeCall]; try exact IH.
  discriminate.
Qed.

(** X15: every run of mergeReadyPR returns (it never panics) and makes
    exactly one merge call, its first; what follows is on the same issue:
    one removal of the "merging" label unless the merge failed without a
    conflict, and one comment exactly when the merge met a conflict. *)
Theorem executor_touches_one_issue :
  exists r answer rest ls,
    mergeReadyPR remote issue w =
      (Ret r, {| calls := calls w ++ CallMerge repo n answer :: rest;
                 logs := logs w ++ ls |})
    /\ Forall (executorCallOn repo n) rest
    /\ countCalls isMergeCall (CallMerge repo n answer :: rest) = 1%nat
    /\ countCalls isRemoveLabelCall rest
       = match answer with Some (ErrOther _) => 0%nat | _ => 1%nat end
    /\ countCalls isCommentCall rest
       = match answer with Some ErrMergeConflict => 1%nat | _ => 0%nat end.
Proof.
  destruct mergeReadyPR_shape
    as [r [answer [rest [ls [Hrun [Hon [Hnone [_ [Hrm [Hcm _]]]]]]]]]].
  exists r, answer, rest, ls. repeat split; try assumption.
  unfold countCalls. cbn [filter isMergeCall List.length]. f_equal.
  now apply no_merge_targets.
Qed.

End ExecutorRuns.

(* ================================================================== *)
(** ** The runs of the batch *)

Section BatchRuns.

Variable remote : Remote.
Variable repo : Repository.

Lemma mergeTargets_app a b :
  mergeTargets (a ++ b) = mergeTargets a ++ mergeTargets b.
Proof.
  induction a as [|c a IH]; [reflexivity|].
  destruct c; cbn [app mergeTargets]; try exact IH. now rewrite IH.
Qed.

Lemma supersededLines_app a b :
  supersededLines (a ++ b) = (supersededLines a + supersededLines b)%nat.
Proof. unfold supersededLines. now rewrite filter_app, length_app. Qed.

Lemma superseded_length fs :
  forall p,
    List.length (superseded (Some p) fs) = List.length fs
    /\ List.length (superseded None fs) = pred (List.length fs).
Proof.
  induction fs as [|e fs IH]; intros p; [now split|].
  destruct (IH e) as [Hsome _]. cbn [superseded List.length].
  rewrite Hsome. now split.
Qed.

(** The loop on candidates that all carry a number and a login: one merge
    call per candidate, in order, nothing but executor calls, and one
    line for every failure that is replaced. *)
Lemma mergeAll_trace candidates :
  forall fin w,
    Forall wellFormedCandidate candidates ->
    exists fin' batch ls,
      mergeAll remote repo candidates fin w =
        (Ret fin', {| calls := calls w ++ batch; logs := logs w ++ ls |})
      /\ mergeTargets batch = candidateNumbers candidates
      /\ forallb isExecutorCall batch = true
      /\ supersededLines ls
         = List.length
             (superseded fin
                (failures (executorResults remote repo candidates
                             (calls w)))).
Proof.
  induction candidates as [|c rest IH]; intros fin w Hwf.
  - exists fin, [], []. cbn [mergeAll]. unfold ret.
    rewrite <- world_eta. repeat split.
  - inversion Hwf as [|? ? [n [login ->]] Hrest]; subst.
    rewrite mergeAll_cons.
    set (issue := {| Issue_Number := n; Issue_Repository := repo;
                     Issue_User := {| Login := login |} |}) in *.
    destruct (mergeReadyPR_frame remote issue w)
      as [r [cs [ls [Hrun [Hpure _]]]]].
    destruct (mergeReadyPR_shape remote issue w)
      as [r' [answer [tail [ls' [Hshape Hrest']]]]].
  destruct Hrest' as [_ [Htargets [Hexec [_ [_ Hlines]]]]].
    rewrite Hrun in Hshape. injection Hshape as Hr Hcs Hls.
    apply app_inv_head in Hcs, Hls. subst r' cs ls'.
    cbn [executorResults candidateIssue Gh_Number Gh_User Gh_Login
           candidateNumbers].
    fold issue. rewrite Hpure, Hrun. cbn [calls logs].
    cbn [Issue_Repository Issue_Number issue] in *.
    assert (Hhead : mergeTargets (CallMerge repo n answer :: tail) = [n])
      by (cbn [mergeTargets]; now rewrite Htargets).
    assert (Hheadexec : forallb isExecutorCall
                          (CallMerge repo n answer :: tail) = true)
      by exact Hexec.
    set (cs := CallMerge repo n answer :: tail) in *. clearbody cs.
    destruct r as [e|]; [destruct fin as [previous|]|].
    + destruct (IH (Some e)
                  {| calls := calls w ++ cs;
                     logs := (logs w ++ ls) ++ [supersededLog previous] |}
                  Hrest) as [fin' [batch [lt [Hloop [Ht [He Hl]]]]]].
      cbn [calls logs] in *. rewrite Hloop.
      exists fin', (cs ++ batch), (ls ++ supersededLog previous :: lt).
      split; [|split; [|split]].
      * f_equal. f_equal; [now rewrite app_assoc|now rewrite <- !app_assoc].
      * now rewrite mergeTargets_app, Hhead, Ht.
      * now rewrite forallb_app, Hheadexec, He.
      * cbn [failures superseded List.length].
        rewrite supersededLines_app, Hlines.
        change (supersededLog previous :: lt)
          with ([supersededLog previous] ++ lt).
        rewrite supersededLines_app, Hl. reflexivity.
    + destruct (IH (Some e)
                  {| calls := calls w ++ cs; logs := logs w ++ ls |}
                  Hrest) as [fin' [batch [lt [Hloop [Ht [He Hl]]]]]].
      cbn [calls logs] in *. rewrite Hloop.
      exists fin', (cs ++ batch), (ls ++ lt).
      split; [|split; [|split]].
      * now rewrite !app_assoc.
      * now rewrite mergeTargets_app, Hhead, Ht.
      * now rewrite forallb_app, Hheadexec, He.
      * cbn [failures superseded].
        now rewrite supersededLines_app, Hlines, Hl.
    + destruct (IH fin
                  {| calls := calls w ++ cs; logs := logs w ++ ls |}
                  Hrest) as [fin' [batch [lt [Hloop [Ht [He Hl]]]]]].
      cbn [calls logs] in *. rewrite Hloop.
      exists fin', (cs ++ batch), (ls ++ lt).
      split; [|split; [|split]].
      * now rewrite !app_assoc.
      * now rewrite mergeTargets_app, Hhead, Ht.
      * now rewrite forallb_app, Hheadexec, He.
      * cbn [failures].
        now rewrite supersededLines_app, Hlines, Hl.
Qed.

(** The loop on a list in two parts is the loop on the first part, then
    on the second with the error kept so far. *)
Lemma mergeAll_app a :
  forall b fin w,
    mergeAll remote repo (a ++ b) fin w =
    match mergeAll remote repo a fin w with
    | (Ret fin', w') => mergeAll remote repo b fin' w'
    | (Panic, w') => (Panic, w')
    end.
Proof.
  induction a as [|c a IH]; intros b fin w; [reflexivity|].
  destruct c as [[n|] [[[login|]]|]]; try reflexivity.
  cbn [app]. rewrite !mergeAll_cons.
  destruct (mergeReadyPR remote _ w) as [[[e|]|] w1]; [|apply IH|reflexivity].
  destruct fin; apply IH.
Qed.

Lemma mergeAll_malformed bad post fin w :
  candidateIssue repo bad = None ->
  mergeAll remote repo (bad :: post) fin w = (Panic, w).
Proof.
  unfold candidateIssue.
  destruct bad as [[n|] [[[login|]]|]]; cbn; intros H;
    try reflexivity; discriminate.
Qed.

End BatchRuns.

Lemma merge_calls_counted (batch : list Call) :
  forall cands,
    Forall wellFormedCandidate cands ->
    mergeTargets batch = candidateNumbers cands ->
    countCalls isMergeCall batch = List.length cands.
Proof.
  unfold countCalls.
  induction batch as [|c batch IH]; intros cands Hwf Htargets.
  - destruct Hwf as [|c cands [n [login ->]] Hwf]; [reflexivity|].
    discriminate.
  - destruct c; cbn [mergeTargets filter isMergeCall] in *;
      try (now apply IH).
    destruct Hwf as [|c cands [m [login ->]] Hwf]; [discriminate|].
    cbn [candidateNumbers Gh_Number] in Htargets.
    injection Htargets as _ Htargets.
    cbn [List.length]. f_equal. now apply IH.
Qed.

Section StatusEventRuns.

Variable remote : Remote.
Variable statusEvent : StatusEvent.
Variable w : World.

Let query := searchQuery statusEvent.

(** X16: when the search fails, the batch answers with a bad-gateway
    error that names the query; the search is its only call, so no PR is
    merged and no label is touched. *)
Theorem search_failure_is_returned (err : GoError) :
  r_searchIssues remote (calls w) query = inr err ->
  mergePullRequestsReadyForMerging remote statusEvent w =
  (Ret (Failure {| Error := err; Code := 502;
                   ErrorMessage :=
                     ("Searching for issues with query '" ++ query
                      ++ "' failed")%string |}),
   {| calls := calls w ++ [CallSearch query (inr err)]; logs := logs w |}).
Proof.
  intros Hsearch.
  unfold mergePullRequestsReadyForMerging, searchIssues, bind, remoteCall,
    ret.
  fold query. now rewrite Hsearch.
Qed.

Section Found.

Variable candidates : list GhIssue.

Let searched := CallSearch query (inl candidates).

Hypothesis search_answer :
  r_searchIssues remote (calls w) query = inl candidates.

(** The batch after the search is the loop, and its answer is read off
    the error the loop ends with. *)
Lemma batch_is_the_loop :
  mergePullRequestsReadyForMerging remote statusEvent w =
  match
    mergeAll remote (SE_Repository statusEvent) candidates None
      {| calls := calls w ++ [searched]; logs := logs w |}
  with
  | (Ret (Some e), w') => (Ret (Failure e), w')
  | (Ret None, w') =>
      (Ret (SuccessResponse
              ("Successfully merged "
               ++ utoa (List.length candidates) ++ " PRs")), w')
  | (Panic, w') => (Panic, w')
  end.
Proof.
  unfold mergePullRequestsReadyForMerging, searchIssues, bind at 1,
    remoteCall.
  fold query. rewrite search_answer. fold searched. unfold bind.
  destruct (mergeAll remote _ candidates None _) as [[[e|]|] w'];
    reflexivity.
Qed.

(** X17: a failing candidate does not stop the batch.  When every search
    result carries a number and a login, the batch returns and has made
    one merge call per result, in the order of the search; besides the
    search its calls are merges, label removals and comments only. *)
Theorem batch_attempts_every_candidate :
  Forall wellFormedCandidate candidates ->
  exists response batch ls,
    mergePullRequestsReadyForMerging remote statusEvent w =
      (Ret response,
       {| calls := calls w ++ searched :: batch; logs := logs w ++ ls |})
    /\ mergeTargets batch = candidateNumbers candidates
    /\ countCalls isMergeCall batch = List.length candidates
    /\ forallb isExecutorCall batch = true.
Proof.
  intros Hwf. rewrite batch_is_the_loop.
  destruct (mergeAll_trace remote (SE_Repository statusEvent) candidates
              None {| calls := calls w ++ [searched]; logs := logs w |} Hwf)
    as [fin [batch [ls [Hloop [Htargets [Hexec _]]]]]].
  rewrite Hloop. cbn [calls logs]. rewrite <- app_assoc. cbn [app].
  pose proof (merge_calls_counted batch candidates Hwf Htargets) as Hcount.
  destruct fin as [e|]; do 3 eexists; (split; [reflexivity|]);
    repeat split; assumption.
Qed.

(** X18: the batch writes one "Multiple PR merge errors" line for every
    failure that a later one replaces: one less than the number of
    failing candidates, and none when at most one candidate fails. *)
Theorem batch_logs_all_but_last_failure :
  Forall wellFormedCandidate candidates ->
  exists response batch ls,
    mergePullRequestsReadyForMerging remote statusEvent w =
      (Ret response,
       {| calls := calls w ++ searched :: batch; logs := logs w ++ ls |})
    /\ supersededLines ls
       = pred (List.length
                 (failures
                    (executorResults remote (SE_Repository statusEvent)
                       candidates (calls w ++ [searched])))).
Proof.
  intros Hwf. rewrite batch_is_the_loop.
  destruct (mergeAll_trace remote (SE_Repository statusEvent) candidates
              None {| calls := calls w ++ [searched]; logs := logs w |} Hwf)
    as [fin [batch [ls [Hloop [_ [_ Hlines]]]]]].
  rewrite Hloop. cbn [calls logs] in *. rewrite <- app_assoc. cbn [app].
  destruct (superseded_length
              (failures
                 (executorResults remote (SE_Repository statusEvent)
                    candidates (calls w ++ [searched])))
              {| Error := ErrMergeConflict; Code := 0;
                 ErrorMessage := EmptyString |}) as [_ Hpred].
  rewrite Hpred in Hlines.
  destruct fin as [e|]; do 3 eexists; (split; [reflexivity|exact Hlines]).
Qed.

(** X19: a search result without a number, an author or a login makes
    the batch panic on the nil dereference, after the results before it
    have been handled: their merge calls are made, no later one is. *)
Theorem batch_panics_on_incomplete_result
    (before after : list GhIssue) (bad : GhIssue) :
  candidates = before ++ bad :: after ->
  Forall wellFormedCandidate before ->
  candidateIssue (SE_Repository statusEvent) bad = None ->
  exists batch ls,
    mergePullRequestsReadyForMerging remote statusEvent w =
      (Panic,
       {| calls := calls w ++ searched :: batch; logs := logs w ++ ls |})
    /\ mergeTargets batch = candidateNumbers before.
Proof.
  intros Hsplit Hwf Hbad. rewrite batch_is_the_loop.
  pose proof (mergeAll_app remote (SE_Repository statusEvent) before
                (bad :: after) None
                {| calls := calls w ++ [searched]; logs := logs w |})
    as Happ.
  rewrite <- Hsplit in Happ. rewrite Happ. clear Happ.
  destruct (mergeAll_trace remote (SE_Repository statusEvent) before
              None {| calls := calls w ++ [searched]; logs := logs w |} Hwf)
    as [fin [batch [ls [Hloop [Htargets _]]]]].
  rewrite Hloop. rewrite (mergeAll_malformed remote _ bad after fin _ Hbad).
  cbn [calls logs]. rewrite <- app_assoc. cbn [app].
  exists batch, ls. split; [reflexivity|exact Htargets].
Qed.

End Found.

End StatusEventRuns.

(* ================================================================== *)
(** ** What the orchestrator never does *)

Section OrchestratorFrame.

Variable remote : Remote.
Variable squashContext : string.
Variable issueComment : IssueComment.
Variable w : World.

Let repo := IC_Repository issueComment.
Let n := IC_IssueNumber issueComment.

Lemma executor_calls_only (h : list Call) :
  forallb isExecutorCall h = true ->
  countCalls isAddLabelCall h = 0%nat /\ countCalls isSearchCall h = 0%nat.
Proof.
  unfold countCalls. induction h as [|c h IH]; [now split|].
  cbn [forallb]. intros H. apply andb_true_iff in H. destruct H as [Hc Hh].
  destruct c; try discriminate; cbn [filter isAddLabelCall isSearchCall];
    now apply IH.
Qed.

(** X20: in every run of handleMergeCommand the first call adds the
    "merging" label to the comment's issue; after it the label is not
    added again, nothing is searched and at most one merge call is
    made. *)
Theorem orchestrator_labels_first_merges_once :
  exists answer rest,
    calls (snd (handleMergeCommand remote squashContext issueComment w)) =
      calls w ++ CallAddLabel repo n MergingLabel answer :: rest
    /\ countCalls isAddLabelCall rest = 0%nat
    /\ countCalls isSearchCall rest = 0%nat
    /\ (countCalls isMergeCall rest <= 1)%nat.
Proof.
  unfold handleMergeCommand, addLabel, removeLabel, getPR, getStatuses,
    squashAndReportFailure, bind, remoteCall, log_Printf, ret, deref.
  cbn [calls logs]. fold repo n.
  destruct (r_addLabel remote (calls w) repo n MergingLabel) as [e|];
    cbn [calls logs snd].
  { do 2 eexists. split; [reflexivity|]. repeat split. cbn. lia. }
  match goal with
  | |- context [r_getPR remote ?h issueComment] =>
      destruct (r_getPR remote h issueComment) as [pr|e]
  end; cbn [calls logs snd].
  2: { do 2 eexists. split; [tidy|]. repeat split. cbn. lia. }
  destruct (Merged pr) as [[|]|]; cbn [calls logs snd].
  - match goal with
    | |- context [r_removeLabel remote ?h repo n MergingLabel] =>
        destruct (r_removeLabel remote h repo n MergingLabel)
    end; cbn [calls logs snd];
      do 2 eexists; (split; [tidy|]); repeat split; cbn; lia.
  - destruct (Mergeable pr) as [[|]|]; cbn [calls logs negb snd].
    + match goal with
      | |- context [r_getStatuses remote ?h pr] =>
          destruct (r_getStatuses remote h pr) as [[state statuses]|e]
      end; cbn [calls logs snd].
      2: { do 2 eexists. split; [tidy|]. repeat split. cbn. lia. }
      match goal with
      | |- context [(if String.eqb state "pending" then ?a else ?b) ?w0] =>
          assert (Hscan : exists o, (if String.eqb state "pending"
                                     then a else b) w0 = (o, w0))
      end.
      { destruct (String.eqb state "pending").
        - apply containsPendingSquashStatus_pure.
        - now exists (Ret false). }
      destruct Hscan as [scan Hscan]. rewrite Hscan.
      destruct scan as [[|]|]; cbn [calls logs snd].
      * do 2 eexists. split; [tidy|]. repeat split. cbn. lia.
      * destruct (String.eqb state "success"); cbn [negb calls logs snd].
        -- match goal with
           | |- context [mergeReadyPR remote ?i ?w0] =>
               destruct (mergeReadyPR_shape remote i w0)
                 as [r [answer [tail [ls [Hrun [_ [Htargets [Hexec _]]]]]]]]
           end.
           rewrite Hrun. cbn [calls logs] in *.
           destruct (executor_calls_only tail Hexec) as [Hadd Hsearch].
           pose proof (no_merge_targets tail Htargets) as Hmerge.
           unfold countCalls in *.
           exists None. eexists. split.
           ++ destruct r as [e|]; cbn [snd calls]; rewrite <- ?app_assoc;
                cbn [app]; reflexivity.
           ++ cbn [filter isAddLabelCall isSearchCall isMergeCall
                     List.length].
              rewrite Hadd, Hsearch, Hmerge. repeat split. lia.
        -- do 2 eexists. split; [tidy|]. repeat split. cbn. lia.
      * do 2 eexists. split; [tidy|]. repeat split. cbn. lia.
    + do 2 eexists. split; [tidy|]. repeat split. cbn. lia.
    + do 2 eexists. split; [tidy|]. repeat split. cbn. lia.
  - do 2 eexists. split; [tidy|]. repeat split. cbn. lia.
Qed.

End OrchestratorFrame.

(* ================================================================== *)
(** ** More concrete runs *)

Section MoreRuns.

Import Scenario Outage.

Lemma ciPending_scannable : scannable squashContext ciPending.
Proof. exists "ci/build"%string. split; [reflexivity|discriminate]. Qed.

Lemma squashDone_scannable : scannable squashContext squashDone.
Proof.
  exists squashContext. split; [reflexivity|]. now exists "success"%string.
Qed.

Lemma no_pending_squash_in_checking :
  forall s, In s [ciPending; squashDone] ->
            ~ pendingSquashEntry squashContext s.
Proof.
  intros s [<-|[<-|[]]] [Hctx Hst]; discriminate.
Qed.

(** A pending check and a finished squash: nothing to retry. *)
Lemma pending_squash_scan_iff_witness :
  exists found,
    containsPendingSquashStatus squashContext [ciPending; squashDone]
      emptyWorld = (Ret found, emptyWorld)
    /\ (found = true <->
        exists s, In s [ciPending; squashDone]
                  /\ pendingSquashEntry squashContext s).
Proof.
  apply (pending_squash_scan_iff squashContext [ciPending; squashDone]
           emptyWorld).
  repeat constructor; [apply ciPending_scannable|apply squashDone_scannable].
Defined.

(** The entry without a context after the pending squash is not read. *)
Lemma pending_squash_scan_stops_at_first_hit_witness :
  containsPendingSquashStatus squashContext
    ([ciPending] ++ squashPending :: [noContext]) emptyWorld
  = (Ret true, emptyWorld).
Proof.
  apply (pending_squash_scan_stops_at_first_hit squashContext [ciPending]
           [noContext] squashPending emptyWorld).
  - repeat constructor. apply ciPending_scannable.
  - split; reflexivity.
Defined.

(** The entry without a context before the pending squash panics. *)
Lemma pending_squash_scan_panics_on_nil_witness :
  containsPendingSquashStatus squashContext
    ([ciPending] ++ noContext :: [squashPending]) emptyWorld
  = (Panic, emptyWorld).
Proof.
  apply (pending_squash_scan_panics_on_nil squashContext [ciPending]
           [squashPending] noContext emptyWorld).
  - repeat constructor. apply ciPending_scannable.
  - intros s [<-|[]] [Hctx Hst]. discriminate.
  - left. reflexivity.
Defined.

Lemma fetch_failure_is_returned_witness :
  handleMergeCommand fetchDown squashContext (mergeComment 7) emptyWorld =
  (Ret (Failure fetchError),
   {| calls := [CallAddLabel repo 7 MergingLabel None;
                CallGetPR (mergeComment 7) (inr fetchError)];
      logs := [] |}).
Proof.
  apply (fetch_failure_is_returned fetchDown squashContext (mergeComment 7)
           emptyWorld eq_refl fetchError eq_refl).
Defined.

Lemma already_merged_removal_failure_is_returned_witness :
  handleMergeCommand mergedRemovalDown squashContext (mergeComment 7)
    emptyWorld =
  (Ret (Failure removalError),
   {| calls := [CallAddLabel repo 7 MergingLabel None;
                CallGetPR (mergeComment 7)
                  (inl {| Merged := Some true; Mergeable := Some false;
                          HeadSHA := Some "abc123"%string |});
                CallRemoveLabel repo 7 MergingLabel (Some removalError)];
      logs := [alreadyMergedLog (mergeComment 7)] |}).
Proof.
  apply (already_merged_removal_failure_is_returned mergedRemovalDown
           squashContext (mergeComment 7) emptyWorld eq_refl _ removalError
           eq_refl eq_refl eq_refl).
Defined.

Lemma status_failure_is_returned_witness :
  handleMergeCommand statusDown squashContext (mergeComment 7) emptyWorld =
  (Ret (Failure statusError),
   {| calls := [CallAddLabel repo 7 MergingLabel None;
                CallGetPR (mergeComment 7) (inl openPR);
                CallGetStatuses openPR (inr statusError)];
      logs := [] |}).
Proof.
  apply (status_failure_is_returned statusDown squashContext
           (mergeComment 7) emptyWorld eq_refl openPR eq_refl eq_refl
           eq_refl statusError eq_refl).
Defined.

Lemma pending_squash_is_retried_witness :
  handleMergeCommand squashing squashContext (mergeComment 7) emptyWorld =
  (Ret (SuccessResponse EmptyString),
   {| calls := [CallAddLabel repo 7 MergingLabel None;
                CallGetPR (mergeComment 7) (inl openPR);
                CallGetStatuses openPR
                  (inl ("pending"%string,
                        [ciPending; squashPending; noContext]));
                CallSquash openPR (SuccessResponse EmptyString)];
      logs := [] |}).
Proof.
  apply (pending_squash_is_retried squashing squashContext (mergeComment 7)
           emptyWorld eq_refl openPR eq_refl eq_refl eq_refl
           "pending"%string [ciPending; squashPending; noContext] eq_refl
           [ciPending] [noContext] squashPending eq_refl eq_refl).
  - repeat constructor. apply ciPending_scannable.
  - split; reflexivity.
Defined.

Lemma unfinished_statuses_wait_witness :
  handleMergeCommand checking squashContext (mergeComment 7) emptyWorld =
  (Ret (SuccessResponse EmptyString),
   {| calls := [CallAddLabel repo 7 MergingLabel None;
                CallGetPR (mergeComment 7) (inl openPR);
                CallGetStatuses openPR
                  (inl ("pending"%string, [ciPending; squashDone]))];
      logs := [notMergingLog (mergeComment 7)] |}).
Proof.
  apply (unfinished_statuses_wait checking squashContext (mergeComment 7)
           emptyWorld eq_refl openPR eq_refl eq_refl eq_refl
           "pending"%string [ciPending; squashDone] eq_refl).
  - discriminate.
  - intros _. split; [|apply no_pending_squash_in_checking].
    repeat constructor;
      [apply ciPending_scannable|apply squashDone_scannable].
Defined.

Lemma ready_PR_runs_the_executor_witness :
  handleMergeCommand conflicting squashContext (mergeComment 7) emptyWorld =
  (Ret (SuccessResponse "Successfully merged PR owner/repo#7"),
   snd (mergeReadyPR conflicting (IC_Issue (mergeComment 7))
          {| calls := [CallAddLabel repo 7 MergingLabel None;
                       CallGetPR (mergeComment 7) (inl openPR);
                       CallGetStatuses openPR (inl ("success"%string, []))];
             logs := [] |})).
Proof.
  apply (ready_PR_runs_the_executor conflicting squashContext
           (mergeComment 7) emptyWorld eq_refl openPR eq_refl eq_refl
           eq_refl "success"%string [] eq_refl eq_refl).
Defined.

Lemma ready_PR_is_merged_witness :
  handleMergeCommand allGood squashContext (mergeComment 7) emptyWorld =
  (Ret (SuccessResponse "Successfully merged PR owner/repo#7"),
   {| calls := [CallAddLabel repo 7 MergingLabel None;
                CallGetPR (mergeComment 7) (inl openPR);
                CallGetStatuses openPR (inl ("success"%string, []));
                CallMerge repo 7 None;
                CallRemoveLabel repo 7 MergingLabel None];
      logs := [mergedLog (IC_Issue (mergeComment 7))] |}).
Proof.
  apply (ready_PR_is_merged allGood squashContext (mergeComment 7)
           emptyWorld eq_refl openPR eq_refl eq_refl eq_refl
           "success"%string [] eq_refl eq_refl eq_refl eq_refl).
Defined.

Lemma merge_failure_keeps_label_witness :
  mergeReadyPR secondAndFourthFail (issueOf 2 "bob") emptyWorld =
  (Ret (Some (mergeFailure 2 "bob" "merge of 2 refused")),
   {| calls := [CallMerge repo 2 (Some (ErrOther "merge of 2 refused"))];
      logs := [] |}).
Proof.
  apply (merge_failure_keeps_label secondAndFourthFail (issueOf 2 "bob")
           emptyWorld "merge of 2 refused" eq_refl).
Defined.

Lemma merge_success_returns_removal_answer_witness :
  mergeReadyPR removalDown (issueOf 7 "alice") emptyWorld =
  (Ret (Some removalError),
   {| calls := [CallMerge repo 7 None;
                CallRemoveLabel repo 7 MergingLabel (Some removalError)];
      logs := [mergedLog (issueOf 7 "alice")] |}).
Proof.
  apply (merge_success_returns_removal_answer removalDown
           (issueOf 7 "alice") emptyWorld eq_refl).
Defined.

Lemma search_failure_is_returned_witness :
  mergePullRequestsReadyForMerging searchDown successEvent emptyWorld =
  (Ret (Failure
          {| Error := ErrOther "rate limited"; Code := 502;
             ErrorMessage :=
               ("Searching for issues with query '"
                ++ searchQuery successEvent ++ "' failed")%string |}),
   {| calls := [CallSearch (searchQuery successEvent)
                  (inr (ErrOther "rate limited"))];
      logs := [] |}).
Proof.
  apply (search_failure_is_returned searchDown successEvent emptyWorld
           (ErrOther "rate limited") eq_refl).
Defined.

Lemma fourCandidates_wellFormed : Forall wellFormedCandidate fourCandidates.
Proof. repeat constructor; apply candidate_wellFormed. Qed.

(** The merges of PR 2 and PR 4 are refused, PR 3 is merged all the
    same. *)
Lemma batch_attempts_every_candidate_witness :
  exists response batch ls,
    mergePullRequestsReadyForMerging secondAndFourthFail successEvent
      emptyWorld =
      (Ret response,
       {| calls := CallSearch (searchQuery successEvent) (inl fourCandidates)
                   :: batch;
          logs := ls |})
    /\ mergeTargets batch = [1; 2; 3; 4]%Z
    /\ countCalls isMergeCall batch = 4%nat
    /\ forallb isExecutorCall batch = true.
Proof.
  apply (batch_attempts_every_candidate secondAndFourthFail successEvent
           emptyWorld fourCandidates eq_refl fourCandidates_wellFormed).
Defined.

(** Two failures: one line for the first of them. *)
Lemma batch_logs_all_but_last_failure_witness :
  exists response batch ls,
    mergePullRequestsReadyForMerging secondAndFourthFail successEvent
      emptyWorld =
      (Ret response,
       {| calls := CallSearch (searchQuery successEvent) (inl fourCandidates)
                   :: batch;
          logs := ls |})
    /\ supersededLines ls = 1%nat.
Proof.
  apply (batch_logs_all_but_last_failure secondAndFourthFail successEvent
           emptyWorld fourCandidates eq_refl fourCandidates_wellFormed).
Defined.

(** PR 1 is merged, the result without a number panics, PR 3 is never
    tried. *)
Lemma batch_panics_on_incomplete_result_witness :
  exists batch ls,
    mergePullRequestsReadyForMerging incompleteSearch successEvent
      emptyWorld =
      (Panic,
       {| calls := CallSearch (searchQuery successEvent)
                     (inl incompleteResults) :: batch;
          logs := ls |})
    /\ mergeTargets batch = [1]%Z.
Proof.
  apply (batch_panics_on_incomplete_result incompleteSearch successEvent
           emptyWorld incompleteResults eq_refl [candidate 1 "alice"]
           [candidate 3 "carol"]
           {| Gh_Number := None;
              Gh_User := Some {| Gh_Login := Some "bob"%string |} |}
           eq_refl).
  - repeat constructor. apply candidate_wellFormed.
  - reflexivity.
Defined.

End MoreRuns.
